(** * wrfhydropy.core.utilities: a shallow embedding and its properties

    The module under study is glue over a scientific I/O stack: it spawns
    [nccmp], walks lists of [pathlib] paths, groups datasets by reference
    time and rewrites the path attributes of a run object.  Everything the
    module itself decides is embedded below as executable definitions;
    what it delegates (the subprocess, [pandas.read_table], the file
    system, [xarray], [f90nml], [deepdiff]) enters as a record of
    operations that the functions are given.

    The definitions come first, module by module in the order of the
    source; the properties follow. *)

From Stdlib Require Import List String Ascii Bool Arith NArith ZArith Lia.
From Stdlib Require Import Permutation.
Import ListNotations.
Open Scope string_scope.
Open Scope list_scope.

Set Implicit Arguments.

(** ** Python values shared by all functions *)

(** Python [str], kept as its UTF-8 encoding, and Python [bytes]. *)
Definition str := string.
Definition bytes := string.

(** The built-in exceptions that the embedded code can raise. *)
Inductive exn : Type :=
| IndexError
| KeyError
| AttributeError
| ValueError
| TypeError
| RecursionError
| UnicodeDecodeError
| OSError.

Inductive result (A : Type) : Type :=
| Ok (a : A)
| Raise (e : exn).
Arguments Ok {A} a.
Arguments Raise {A} e.

(** [s.startswith(prefix)] *)
Definition startswith (s pre : str) : bool := String.prefix pre s.

(** [sep.join(items)] *)
Definition join (sep : str) (items : list str) : str := String.concat sep items.

(** [s.split(sep)] for a one-character separator. *)
Fixpoint split (sep : ascii) (s : str) : list str :=
  match s with
  | EmptyString => [""]
  | String c t =>
      if Ascii.eqb c sep then "" :: split sep t
      else match split sep t with
           | h :: r => String c h :: r
           | [] => [String c ""]
           end
  end.

(** ** [bytes.decode('utf-8')], strict *)
Module Utf8.

Definition byte_in (lo hi : N) (c : ascii) : bool :=
  (lo <=? N_of_ascii c)%N && (N_of_ascii c <=? hi)%N.

Definition continuation (c : ascii) : bool := byte_in 128 191 c.

(** Range of the second byte of a three-byte sequence: no overlong
    form after E0, no surrogate after ED. *)
Definition second_of_3 (b0 : N) (c : ascii) : bool :=
  if (b0 =? 224)%N then byte_in 160 191 c
  else if (b0 =? 237)%N then byte_in 128 159 c
  else continuation c.

(** Range of the second byte of a four-byte sequence: no overlong
    form after F0, nothing above U+10FFFF after F4. *)
Definition second_of_4 (b0 : N) (c : ascii) : bool :=
  if (b0 =? 240)%N then byte_in 144 191 c
  else if (b0 =? 244)%N then byte_in 128 143 c
  else continuation c.

Fixpoint well_formed (s : bytes) : bool :=
  match s with
  | EmptyString => true
  | String c0 t =>
      let b0 := N_of_ascii c0 in
      if (b0 <? 128)%N then well_formed t
      else if byte_in 194 223 c0 then
        match t with
        | String c1 t1 => continuation c1 && well_formed t1
        | _ => false
        end
      else if byte_in 224 239 c0 then
        match t with
        | String c1 (String c2 t2) =>
            second_of_3 b0 c1 && continuation c2 && well_formed t2
        | _ => false
        end
      else if byte_in 240 244 c0 then
        match t with
        | String c1 (String c2 (String c3 t3)) =>
            second_of_4 b0 c1 && continuation c2 && continuation c3
            && well_formed t3
        | _ => false
        end
      else false
  end.

(** [b.decode('utf-8')]: the text, or [UnicodeDecodeError]. *)
Definition decode (b : bytes) : result str :=
  if well_formed b then Ok b else Raise UnicodeDecodeError.

End Utf8.

(** ** [pathlib.PosixPath] *)
Module Pathlib.

(** A pure POSIX path after parsing: the root ([""], ["/"] or ["//"])
    and the components that follow it. *)
Record PosixPath : Type := mkPath { root : str; tail : list str }.

Definition kept_component (x : str) : bool :=
  negb (x =? "") && negb (x =? ".").

Definition parse_root (s : str) : str :=
  if startswith s "///" then "/"
  else if startswith s "//" then "//"
  else if startswith s "/" then "/"
  else "".

(** [PosixPath(s)] *)
Definition of_str (s : str) : PosixPath :=
  mkPath (parse_root s) (filter kept_component (split "/" s)).

(** [str(p)] *)
Definition to_str (p : PosixPath) : str :=
  match tail p with
  | [] => if root p =? "" then "." else root p
  | _ => (root p ++ join "/" (tail p))%string
  end.

(** [p.name] *)
Definition name (p : PosixPath) : str := last (tail p) "".

(** [p.parent] *)
Definition parent (p : PosixPath) : PosixPath :=
  mkPath (root p) (removelast (tail p)).

(** [p.joinpath(s)]: a rooted argument replaces the path. *)
Definition joinpath (p : PosixPath) (s : str) : PosixPath :=
  let q := of_str s in
  if root q =? "" then mkPath (root p) (tail p ++ tail q) else q.

Fixpoint strip_prefix (pre l : list str) : option (list str) :=
  match pre, l with
  | [], _ => Some l
  | x :: pre', y :: l' => if x =? y then strip_prefix pre' l' else None
  | _ :: _, [] => None
  end.

(** [p.relative_to(other)] for a parsed [other]; [None] is the
    [ValueError] raised when [p] is not below [other]. *)
Definition relative_to (p other : PosixPath) : option PosixPath :=
  if root p =? root other then
    match strip_prefix (tail other) (tail p) with
    | Some rest => Some (mkPath "" rest)
    | None => None
    end
  else None.

End Pathlib.
Import Pathlib.


(** ** [compare_nc_nccmp] and [compare_ncfiles] *)
Module Nccmp.

(** What [subprocess.run(..., stdout=PIPE, stderr=PIPE)] returns. *)
Record CompletedProcess : Type := mkProc {
  args : list str;
  returncode : Z;
  stdout : bytes;
  stderr : bytes
}.

(** What the functions do to the outside, in the order they do it. *)
Inductive event : Type :=
| Spawn (command_list : list str)      (* subprocess.run *)
| IsFile (p : PosixPath)               (* Path.is_file *)
| Warn (message : str).                (* warnings.warn *)

(** A computation: the events it caused, and its value or the
    exception that ended it. *)
Definition M (A : Type) : Type := (list event * result A)%type.

Definition ret {A} (a : A) : M A := ([], Ok a).
Definition raise {A} (e : exn) : M A := ([], Raise e).
Definition emit (ev : event) : M unit := ([ev], Ok tt).
Definition lift {A} (r : result A) : M A := ([], r).

Definition bind {A B} (m : M A) (k : A -> M B) : M B :=
  match m with
  | (log, Ok a) => let (log', r) := k a in (log ++ log', r)
  | (log, Raise e) => (log, Raise e)
  end.

#[local] Notation "x <- m ;; k" := (bind m (fun x => k))
  (at level 61, m at next level, right associativity).
#[local] Notation "m ;;; k" := (bind m (fun _ => k))
  (at level 61, right associativity).

(** An argument that is a path or already a string; [str()] of it. *)
Inductive pathlike : Type :=
| OfStr (s : str)
| OfPath (p : PosixPath).

Definition str_of (x : pathlike) : str :=
  match x with
  | OfStr s => s
  | OfPath p => to_str p
  end.

(** The value [compare_nc_nccmp] returns. *)
Inductive nccmp_out (DataFrame : Type) : Type :=
| RetNone
| RetTable (t : DataFrame)
| RetProc (proc : CompletedProcess).
Arguments RetNone {DataFrame}.
Arguments RetTable {DataFrame} t.
Arguments RetProc {DataFrame} proc.

(** The parts of the outside the two functions call into:
    the operating system running a command (or failing to start it),
    [pandas.read_table(text, delim_whitespace=True, header=0)]
    ([None] when it raises), and the file system. *)
Record World (DataFrame : Type) : Type := mkWorld {
  subprocess_run : list str -> result CompletedProcess;
  read_table : str -> option DataFrame;
  is_file : PosixPath -> bool
}.

Definition default_nccmp_options : list str :=
  ["--data"; "--metadata"; "--force"; "--quiet"].


Definition parse_warning : str :=
  "Probleming reading nccmp output to pandas dataframe,returning as subprocess object".

(** Lines 27-45: the list handed to [subprocess.run]. *)
Definition command_list (candidate_nc reference_nc : pathlike)
    (nccmp_options : list str) (exclude_vars : option (list str)) : list str :=
  let candidate_nc := str_of candidate_nc in
  let reference_nc := str_of reference_nc in
  let command_list := ["nccmp"] in
  let command_list := command_list ++ nccmp_options in
  let command_list := command_list ++ ["-S"] in
  let command_list :=
    match exclude_vars with
    | Some exclude_vars =>
        let exclude_vars := join "," exclude_vars in
        command_list ++ [("-x " ++ exclude_vars)%string]
    | None => command_list
    end in
  let command_list := command_list ++ [candidate_nc] in
  command_list ++ [reference_nc].

Section Functions.
Variable DataFrame : Type.
Variable w : World DataFrame.

Definition run (cmd : list str) : M CompletedProcess :=
  emit (Spawn cmd) ;;; lift (subprocess_run w cmd).

(** Lines 10-66. *)
Definition compare_nc_nccmp (candidate_nc reference_nc : pathlike)
    (nccmp_options : list str) (exclude_vars : option (list str))
    : M (nccmp_out DataFrame) :=
  proc <- run (command_list candidate_nc reference_nc nccmp_options exclude_vars) ;;
  if negb (returncode proc =? 0)%Z then
    output <- lift (Utf8.decode (stdout proc)) ;;
    match read_table w output with
    | Some nccmp_out => ret (RetTable nccmp_out)
    | None => emit (Warn parse_warning) ;;; ret (RetProc proc)
    end
  else ret RetNone.

Definition not_found_warning (file_candidate ref_dir : PosixPath) : str :=
  (to_str file_candidate ++ "not found in " ++ to_str ref_dir)%string.

(** Lines 88-97: the loop over the candidates, [output_list] being
    what has been appended so far. *)
Fixpoint compare_each (ref_dir : PosixPath) (candidate_files : list PosixPath)
    (nccmp_options : list str) (exclude_vars : option (list str))
    (output_list : list (nccmp_out DataFrame)) : M (list (nccmp_out DataFrame)) :=
  match candidate_files with
  | [] => ret output_list
  | file_candidate :: rest =>
      let file_reference := joinpath ref_dir (name file_candidate) in
      emit (IsFile file_reference) ;;;
      if is_file w file_reference then
        nccmp_out <- compare_nc_nccmp (OfPath file_candidate) (OfPath file_reference)
                       nccmp_options exclude_vars ;;
        compare_each ref_dir rest nccmp_options exclude_vars (output_list ++ [nccmp_out])
      else
        emit (Warn (not_found_warning file_candidate ref_dir)) ;;;
        compare_each ref_dir rest nccmp_options exclude_vars output_list
  end.

(** Lines 69-98. *)
Definition compare_ncfiles (candidate_files reference_files : list PosixPath)
    (nccmp_options : list str) (exclude_vars : option (list str))
    : M (list (nccmp_out DataFrame)) :=
  match reference_files with
  | [] => raise IndexError
  | first :: _ =>
      let ref_dir := parent first in
      compare_each ref_dir candidate_files nccmp_options exclude_vars []
  end.

(** Line 101: the legacy alias. *)
Definition compare_restarts := compare_ncfiles.

End Functions.

Section Vocabulary.
Variable DataFrame : Type.
Variable w : World DataFrame.
Variable first : PosixPath.

(** The reference file looked for on behalf of a candidate, given the
    first reference file. *)
Definition reference_of (file_candidate : PosixPath) : PosixPath :=
  joinpath (parent first) (name file_candidate).

Definition matched (file_candidate : PosixPath) : bool :=
  is_file w (reference_of file_candidate).


(** The pair comparison made for a matched candidate. *)
Definition pair (nccmp_options : list str) (exclude_vars : option (list str))
    (file_candidate : PosixPath) : M (nccmp_out DataFrame) :=
  compare_nc_nccmp w (OfPath file_candidate) (OfPath (reference_of file_candidate))
    nccmp_options exclude_vars.

End Vocabulary.

(** The commands a log shows as spawned, in order. *)
Fixpoint spawned (log : list event) : list (list str) :=
  match log with
  | [] => []
  | Spawn cmd :: rest => cmd :: spawned rest
  | _ :: rest => spawned rest
  end.

(** The argument list in the words of the specification: the exclusion
    argument is there only if the exclusion list is non-empty. *)
Definition spec_command_list (candidate_nc reference_nc : pathlike)
    (nccmp_options : list str) (exclude_vars : option (list str)) : list str :=
  "nccmp" :: nccmp_options ++ "-S" ::
    match exclude_vars with
    | Some (v :: vs) => [("-x " ++ join "," (v :: vs))%string]
    | _ => []
    end ++ [str_of candidate_nc; str_of reference_nc].

(** Matching in the words of the specification: a file of the same
    name is a member of the supplied reference list. *)
Definition spec_matched (reference_files : list PosixPath)
    (file_candidate : PosixPath) : bool :=
  existsb (fun r => name r =? name file_candidate) reference_files.

End Nccmp.

(** ** [open_nwmdataset] *)
Module NwmDataset.

(** What the function asks of [xarray]: opening a file, reading
    [ds['reference_time'].values[0]], [xr.concat(..., coords='minimal')]
    along a named dimension and [Dataset.chunk].  [key_eqb] is the
    equality the dictionary lookup [ref_time in ds_dict] uses. *)
Record Xarray (Dataset Key Chunks : Type) : Type := mkXarray {
  open_dataset : str -> result Dataset;
  reference_time0 : Dataset -> result Key;
  key_eqb : Key -> Key -> bool;
  concat : str -> list Dataset -> result Dataset;
  chunk : Chunks -> Dataset -> result Dataset
}.

Section Functions.
Variables Dataset Key Chunks : Type.
Variable xr : Xarray Dataset Key Chunks.

(** A [dict] from reference time to the datasets of that forecast,
    in insertion order. *)
Definition ds_dict : Type := list (Key * list Dataset).

(** Lines 141-146: append to the slot of [ref_time], or open a new
    slot at the end. *)
Fixpoint add_dataset (d : ds_dict) (ref_time : Key) (ds : Dataset) : ds_dict :=
  match d with
  | [] => [(ref_time, [ds])]
  | (k, members) :: rest =>
      if key_eqb xr k ref_time then (k, members ++ [ds]) :: rest
      else (k, members) :: add_dataset rest ref_time ds
  end.

(** Lines 138-146. *)
Fixpoint group_files (paths : list str) (d : ds_dict) : result ds_dict :=
  match paths with
  | [] => Ok d
  | a_file :: rest =>
      match open_dataset xr a_file with
      | Raise e => Raise e
      | Ok ds =>
          match reference_time0 xr ds with
          | Raise e => Raise e
          | Ok ref_time => group_files rest (add_dataset d ref_time ds)
          end
      end
  end.

(** Lines 149-153. *)
Fixpoint concat_forecasts (d : ds_dict) (forecast_list : list Dataset)
    : result (list Dataset) :=
  match d with
  | [] => Ok forecast_list
  | (_, members) :: rest =>
      match concat xr "time" members with
      | Raise e => Raise e
      | Ok forecast => concat_forecasts rest (forecast_list ++ [forecast])
      end
  end.

(** Lines 123-164. *)
Definition open_nwmdataset (paths : list str) (chunks : option Chunks)
    : result Dataset :=
  match group_files paths [] with
  | Raise e => Raise e
  | Ok d =>
      match concat_forecasts d [] with
      | Raise e => Raise e
      | Ok forecast_list =>
          match concat xr "reference_time" forecast_list with
          | Raise e => Raise e
          | Ok nwm_dataset =>
              match chunks with
              | Some chunks => chunk xr chunks nwm_dataset
              | None => Ok nwm_dataset
              end
          end
      end
  end.

End Functions.

End NwmDataset.

(** ** [diff_namelist] *)
Module Namelist.

(** [f90nml.read], [deepdiff.DeepDiff(t1, t2, ignore_order=True, **kwargs)]
    and [dict(...)] of its result. *)
Record Libraries (Tree Diff Dict Kwargs : Type) : Type := mkLibraries {
  f90nml_read : str -> result Tree;
  DeepDiff : Tree -> Tree -> bool -> Kwargs -> result Diff;
  dict_of : Diff -> Dict
}.

Section Functions.
Variables Tree Diff Dict Kwargs : Type.
Variable lib : Libraries Tree Diff Dict Kwargs.

(** Lines 103-120. *)
Definition diff_namelist (namelist1 namelist2 : str) (kwargs : Kwargs)
    : result Dict :=
  match f90nml_read lib namelist1 with
  | Raise e => Raise e
  | Ok namelist1 =>
      match f90nml_read lib namelist2 with
      | Raise e => Raise e
      | Ok namelist2 =>
          match DeepDiff lib namelist1 namelist2 true kwargs with
          | Raise e => Raise e
          | Ok differences => Ok (dict_of lib differences)
          end
      end
  end.

End Functions.

End Namelist.

(** ** [__make_relative__] *)
Module Relative.

(** The values an attribute of a run object can hold, by the types the
    function tells apart.

    Modelled from the spec: [wrfhydropy.WrfHydroStatic] and
    [wrfhydropy.WrfHydroTs] are declared outside this file.  The spec
    gives the first as a path subtype that supports relative-path
    computation ([VStatic]) and the second as a list-like collection of
    path-bearing entries that a list can be wrapped back into ([VTs]). *)
#[local] Unset Elimination Schemes.
Inductive value : Type :=
| VNone
| VStr (s : str)
| VOther (repr : str)                 (* any other type: int, bool, method, ... *)
| VPath (p : PosixPath)               (* type(x) is pathlib.PosixPath *)
| VStatic (p : PosixPath)             (* type(x) is wrfhydropy.WrfHydroStatic *)
| VList (items : list value)          (* type(x) == list *)
| VTs (items : list value)            (* type(x) is wrfhydropy.WrfHydroTs *)
| VObj (attrs : list (str * value)).  (* an object with attributes of its own *)
#[local] Set Elimination Schemes.

(** An object: its attributes.  A nested object is held by value; the
    function never reaches one object through two attributes it rewrites. *)
Definition obj : Type := list (str * value).

Fixpoint getattr (o : obj) (attr : str) : option value :=
  match o with
  | [] => None
  | (k, v) :: rest => if k =? attr then Some v else getattr rest attr
  end.

Fixpoint setattr (o : obj) (attr : str) (v : value) : obj :=
  match o with
  | [] => [(attr, v)]
  | (k, x) :: rest =>
      if k =? attr then (k, v) :: rest else (k, x) :: setattr rest attr v
  end.

Fixpoint insert_sorted (a : str) (l : list str) : list str :=
  match l with
  | [] => [a]
  | x :: rest => if String.leb a x then a :: l else x :: insert_sorted a rest
  end.

Definition mem (a : str) (l : list str) : bool := existsb (String.eqb a) l.

(** [dir(o)]: the attribute names, each once, sorted. *)
Fixpoint dir (o : obj) : list str :=
  match o with
  | [] => []
  | (k, _) :: rest =>
      let names := dir rest in
      if mem k names then names else insert_sorted k names
  end.

(** The argument of [relative_to] as a path: a string or a path is
    accepted, anything else is a [TypeError]. *)
Definition as_path (basepath : value) : result PosixPath :=
  match basepath with
  | VStr s => Ok (of_str s)
  | VPath p | VStatic p => Ok p
  | _ => Raise TypeError
  end.

Definition relative_path (p : PosixPath) (basepath : value) : result PosixPath :=
  match as_path basepath with
  | Raise e => Raise e
  | Ok other =>
      match relative_to p other with
      | Some r => Ok r
      | None => Raise ValueError
      end
  end.

(** [type(item) is pathlib.PosixPath or type(item) is wrfhydropy.WrfHydroStatic] *)
Definition is_path_item (item : value) : bool :=
  match item with
  | VPath _ | VStatic _ => true
  | _ => false
  end.

(** [item.relative_to(basepath)] for such an item; the result has the
    class of [item]. *)
Definition item_relative_to (item basepath : value) : result value :=
  match item with
  | VPath p =>
      match relative_path p basepath with
      | Ok r => Ok (VPath r)
      | Raise e => Raise e
      end
  | VStatic p =>
      match relative_path p basepath with
      | Ok r => Ok (VStatic r)
      | Raise e => Raise e
      end
  | _ => Raise AttributeError
  end.

(** Code that mutates the run object in place and may raise: the
    object is threaded through, and is still there after a raise. *)
Definition ST (A : Type) : Type := obj -> obj * result A.

Definition ret {A} (a : A) : ST A := fun o => (o, Ok a).
Definition throw {A} (e : exn) : ST A := fun o => (o, Raise e).
Definition lift {A} (r : result A) : ST A := fun o => (o, r).

Definition bind {A B} (m : ST A) (k : A -> ST B) : ST B :=
  fun o =>
    match m o with
    | (o1, Ok a) => k a o1
    | (o1, Raise e) => (o1, Raise e)
    end.

#[local] Notation "x <- m ;; k" := (bind m (fun x => k))
  (at level 61, m at next level, right associativity).
#[local] Notation "m ;;; k" := (bind m (fun _ => k))
  (at level 61, right associativity).

Definition get_attr (attr : str) : ST value :=
  fun o =>
    match getattr o attr with
    | Some v => (o, Ok v)
    | None => (o, Raise AttributeError)
    end.

Definition set_attr (attr : str) (v : value) : ST unit :=
  fun o => (setattr o attr v, Ok tt).

(** Lines 185-189 and 192-197: the loop over the items of a list-like
    attribute.  [wrap] is what the collected list is stored as ([VList]
    for a plain list, [VTs] for a [WrfHydroTs]); the attribute is set
    inside the loop, each time a path item has been appended. *)
Fixpoint collect (wrap : list value -> value) (basepath : value) (attr : str)
    (items relative_list : list value) : ST unit :=
  match items with
  | [] => ret tt
  | item :: rest =>
      if is_path_item item then
        r <- lift (item_relative_to item basepath) ;;
        let relative_list := relative_list ++ [r] in
        set_attr attr (wrap relative_list) ;;;
        collect wrap basepath attr rest relative_list
      else collect wrap basepath attr rest relative_list
  end.

(** Lines 182-200: one attribute whose name does not start with [__]. *)
Definition relativize_attr (basepath : value) (attr : str) : ST unit :=
  attr_object <- get_attr attr ;;
  match attr_object with
  | VList items => collect VList basepath attr items []
  | _ => ret tt
  end ;;;
  match attr_object with
  | VTs items => collect VTs basepath attr items []
  | VPath p =>
      r <- lift (item_relative_to (VPath p) basepath) ;;
      set_attr attr r
  | _ => ret tt
  end.

(** Lines 203-204: [__make_relative__(run_object.simulation.domain,
    basepath=run_object.simulation.domain.domain_top_dir)], with [rec]
    the recursive call; the domain it leaves is the domain the
    simulation holds afterwards. *)
Definition descend (rec : obj -> value -> obj * result unit) : ST unit :=
  simulation <- get_attr "simulation" ;;
  match simulation with
  | VObj sim =>
      match getattr sim "domain" with
      | Some (VObj domain) =>
          match getattr domain "domain_top_dir" with
          | Some top =>
              fun o =>
                let (domain', r) := rec domain top in
                (setattr o "simulation" (VObj (setattr sim "domain" (VObj domain'))), r)
          | None => throw AttributeError
          end
      | _ => throw AttributeError
      end
  | _ => throw AttributeError
  end.

(** Lines 181-204: the body of the loop over [dir(run_object)]. *)
Definition visit (rec : obj -> value -> obj * result unit)
    (basepath : value) (attr : str) : ST unit :=
  (if negb (startswith attr "__") then relativize_attr basepath attr else ret tt) ;;;
  if attr =? "simulation" then descend rec else ret tt.

Fixpoint for_each (body : str -> ST unit) (names : list str) : ST unit :=
  match names with
  | [] => ret tt
  | attr :: rest => body attr ;;; for_each body rest
  end.

(** Lines 167-204.  [depth] is the number of nested calls the
    interpreter still allows; at [0] the call raises [RecursionError]. *)
Fixpoint __make_relative__ (depth : nat) (run_object : obj) (basepath : value)
    : obj * result unit :=
  match depth with
  | 0 => (run_object, Raise RecursionError)
  | S depth' =>
      (basepath <- match basepath with
                   | VNone => get_attr "simulation_dir"
                   | _ => ret basepath
                   end ;;
       for_each (visit (__make_relative__ depth') basepath) (dir run_object))
        run_object
  end.

(** Lines 178-179: the base that is used, [None] when the default is
    asked for and the object has no [simulation_dir]. *)
Definition effective_base (run_object : obj) (basepath : value) : option value :=
  match basepath with
  | VNone => getattr run_object "simulation_dir"
  | _ => Some basepath
  end.

(** [relative_list] holds, in order, the relative forms of the path
    items of [items]; the other items have no counterpart. *)
Definition relative_forms (basepath : value) (items relative_list : list value) : Prop :=
  Forall2 (fun item r => item_relative_to item basepath = Ok r)
          (filter is_path_item items) relative_list.

End Relative.

(** ** Concrete scenarios used by the closed lemmas below *)
Module Scenarios.
Import Nccmp.

(** A table as rows of cells. *)
Definition Table : Type := list (list str).

Definition newline : ascii := ascii_of_N 10.

(** A stand-in for [pandas.read_table]: rows split at line ends, cells
    at blanks; empty text has no header row to read. *)
Definition toy_read_table (text : str) : option Table :=
  if text =? "" then None else Some (map (split " ") (split newline text)).

(** [nccmp] found differences and printed a two-line summary. *)
Definition differing : World Table :=
  mkWorld
    (fun cmd => Ok (mkProc cmd 1 ("Variable Max" ++ String newline "T 0.5")%string ""))
    toy_read_table
    (fun _ => true).

(** [nccmp] exits non-zero and prints nothing. *)
Definition silent : World Table :=
  mkWorld (fun cmd => Ok (mkProc cmd 2 "" "")) toy_read_table (fun _ => true).

(** [nccmp] exits non-zero and its output holds the byte FF, which is
    not UTF-8. *)
Definition garbled : World Table :=
  mkWorld
    (fun cmd => Ok (mkProc cmd 1 (String (ascii_of_N 255) "") ""))
    toy_read_table
    (fun _ => true).

(** The files are identical; only [/ref/b.nc] and [/ref/c.nc] exist in
    the reference directory. *)
Definition identical : World Table :=
  mkWorld
    (fun cmd => Ok (mkProc cmd 0 "" ""))
    toy_read_table
    (fun p => (to_str p =? "/ref/b.nc") || (to_str p =? "/ref/c.nc")).

Definition candidates : list PosixPath :=
  [of_str "/run/a.nc"; of_str "/run/b.nc"; of_str "/run/c.nc"].

Definition references : list PosixPath :=
  [of_str "/ref/b.nc"; of_str "/ref/c.nc"].

Import Relative.

(** A run object with a single path, a dunder-named path, a list that
    mixes paths, a static file and other values, a list without any
    path, and a time series. *)
Definition job : obj :=
  [("restart_file", VPath (of_str "/a/b/c/d"));
   ("__origin", VPath (of_str "/a/b/c/d"));
   ("forcing_files",
    VList [VPath (of_str "/a/b/c/d"); VOther "3"; VStatic (of_str "/a/b/geo/hgt.nc")]);
   ("restart_files", VList [VPath (of_str "/a/b/c/d"); VPath (of_str "/a/b/c/e")]);
   ("notes", VList [VOther "3"; VStr "/a/b/readme"]);
   ("channel_rt", VTs [VPath (of_str "/a/b/out/1.nc"); VPath (of_str "/a/b/out/2.nc")])].

(** The same object after one pass with base [/a/b]. *)
Definition job_relative : obj :=
  [("restart_file", VPath (of_str "c/d"));
   ("__origin", VPath (of_str "/a/b/c/d"));
   ("forcing_files", VList [VPath (of_str "c/d"); VStatic (of_str "geo/hgt.nc")]);
   ("restart_files", VList [VPath (of_str "c/d"); VPath (of_str "c/e")]);
   ("notes", VList [VOther "3"; VStr "/a/b/readme"]);
   ("channel_rt", VTs [VPath (of_str "out/1.nc"); VPath (of_str "out/2.nc")])].

(** A run object whose simulation has not been set. *)
Definition unset_job : obj :=
  [("simulation", VNone); ("workdir", VPath (of_str "/a/b/c/d"))].

End Scenarios.

(** ** Vocabulary for the further properties *)
Unset Implicit Arguments.

Module NccmpLog.
Import Nccmp.

(** The files a log shows as tested with [is_file], in order. *)
Fixpoint file_tests (log : list event) : list PosixPath :=
  match log with
  | [] => []
  | IsFile p :: rest => p :: file_tests rest
  | _ :: rest => file_tests rest
  end.

(** The messages a log shows as warned, in order. *)
Fixpoint warnings (log : list event) : list str :=
  match log with
  | [] => []
  | Warn message :: rest => message :: warnings rest
  | _ :: rest => warnings rest
  end.

(** Every byte is below 128. *)
Fixpoint is_ascii (b : bytes) : bool :=
  match b with
  | EmptyString => true
  | String c rest => (N_of_ascii c <? 128)%N && is_ascii rest
  end.

Fixpoint has_slash (s : str) : bool :=
  match s with
  | EmptyString => false
  | String c rest => Ascii.eqb c "/" || has_slash rest
  end.

(** A file name as [Path.name] gives it for a path with at least one
    component: not empty, not [.], without a slash. *)
Definition plain_name (s : str) : bool :=
  negb (s =? "") && negb (s =? ".") && negb (has_slash s).

(** The result of a later part of a walk, behind what an earlier part
    has returned. *)
Definition prepend {A : Type} (earlier : list A) (later : result (list A))
    : result (list A) :=
  match later with
  | Ok l => Ok (earlier ++ l)
  | Raise e => Raise e
  end.

End NccmpLog.

Module NwmGroups.
Import NwmDataset.

Section Vocabulary.
Variables Dataset Key Chunks : Type.
Variable xr : Xarray Dataset Key Chunks.

(** Lines 139-140: a file opened and its reference time read. *)
Definition load (a_file : str) : result (Key * Dataset) :=
  match open_dataset xr a_file with
  | Raise e => Raise e
  | Ok ds =>
      match reference_time0 xr ds with
      | Raise e => Raise e
      | Ok ref_time => Ok (ref_time, ds)
      end
  end.

(** Lines 141-146 applied to the loaded files in turn, starting from
    the dictionary [d]. *)
Definition group_entries (entries : list (Key * Dataset)) (d : ds_dict Dataset Key)
    : ds_dict Dataset Key :=
  fold_left (fun d e => add_dataset xr d (fst e) (snd e)) entries d.

(** The datasets of the entries whose reference time equals [k], in
    entry order. *)
Definition members (k : Key) (entries : list (Key * Dataset)) : list Dataset :=
  map snd (filter (fun e => key_eqb xr k (fst e)) entries).

(** The reference times of the entries, each kept at its first
    appearance only. *)
Fixpoint first_keys (entries : list (Key * Dataset)) : list Key :=
  match entries with
  | [] => []
  | e :: rest =>
      fst e :: filter (fun k => negb (key_eqb xr (fst e) k)) (first_keys rest)
  end.

(** Grouping as one would specify it: one group per reference time, in
    the order of first appearance, each with its datasets in entry order. *)
Definition group_by (entries : list (Key * Dataset)) : list (Key * list Dataset) :=
  map (fun k => (k, members k entries)) (first_keys entries).

(** No two keys of the list are equal, earlier against later. *)
Fixpoint pairwise_different (keys : list Key) : Prop :=
  match keys with
  | [] => True
  | k :: rest => Forall (fun k' => key_eqb xr k k' = false) rest /\ pairwise_different rest
  end.

End Vocabulary.

Arguments load {Dataset Key Chunks} xr a_file.
Arguments group_entries {Dataset Key Chunks} xr entries d.
Arguments members {Dataset Key Chunks} xr k entries.
Arguments first_keys {Dataset Key Chunks} xr entries.
Arguments group_by {Dataset Key Chunks} xr entries.
Arguments pairwise_different {Dataset Key Chunks} xr keys.

End NwmGroups.

Module RelativeShape.
Import Relative.

(** Values of a type that no branch of [__make_relative__] rewrites. *)
Definition inert (v : value) : bool :=
  match v with
  | VNone | VStr _ | VOther _ | VStatic _ => true
  | _ => false
  end.



End RelativeShape.

(** ** Further scenarios *)
Module MoreScenarios.
Import NwmDataset.

(** A toy dataset: its reference time and the values of its time axis. *)
Definition ToyDataset : Type := (nat * list nat)%type.

(** A toy [xarray]: three files exist; concatenation keeps the
    reference time of the first member and chains the time axes, and
    refuses an empty list; chunking changes nothing that is modelled. *)
Definition toy_xarray : Xarray ToyDataset nat unit :=
  mkXarray
    (fun a_file =>
       if (a_file =? "f1.nc")%string then Ok (1, [10; 11])
       else if (a_file =? "f2.nc")%string then Ok (2, [20])
       else if (a_file =? "f3.nc")%string then Ok (1, [12])
       else Raise OSError)
    (fun ds => Ok (fst ds))
    Nat.eqb
    (fun _ members =>
       match members with
       | [] => Raise ValueError
       | ds :: _ => Ok (fst ds, flat_map snd members)
       end)
    (fun _ ds => Ok ds).

(** A run object with a simulation that holds a domain. *)
Definition nested_job : Relative.obj :=
  [("simulation",
    Relative.VObj
      [("domain",
        Relative.VObj
          [("domain_top_dir", Relative.VPath (of_str "/d"));
           ("geo_file", Relative.VPath (of_str "/d/geo.nc"))]);
       ("forcing_dir", Relative.VPath (of_str "/a/b/forcing"))]);
   ("simulation_dir", Relative.VPath (of_str "/a/b"));
   ("static", Relative.VStatic (of_str "/a/b/s.nc"))].


End MoreScenarios.

Set Implicit Arguments.

(** * Properties *)

(** ** The pair and set comparators *)
Module NccmpFacts.
Import Nccmp.

Lemma spawned_app (l1 l2 : list event) :
  spawned (l1 ++ l2) = spawned l1 ++ spawned l2.
Proof.
  induction l1 as [|ev l1 IH]; simpl; [reflexivity|].
  destruct ev; simpl; rewrite IH; reflexivity.
Qed.

(** The shape of the list that [command_list] builds. *)
Lemma command_list_shape (candidate_nc reference_nc : pathlike)
    (nccmp_options : list str) (exclude_vars : option (list str)) :
  command_list candidate_nc reference_nc nccmp_options exclude_vars =
  "nccmp" :: nccmp_options ++ "-S" ::
    match exclude_vars with
    | Some vs => [("-x " ++ join "," vs)%string]
    | None => []
    end ++ [str_of candidate_nc; str_of reference_nc].
Proof.
  unfold command_list.
  destruct exclude_vars as [vs|]; simpl; repeat rewrite <- app_assoc; reflexivity.
Qed.

Section World.
Variable DataFrame : Type.
Variable w : World DataFrame.

(** The pair comparator spawns exactly one command, whatever happens
    afterwards. *)
Lemma compare_nc_nccmp_spawned candidate_nc reference_nc nccmp_options exclude_vars :
  spawned (fst (compare_nc_nccmp w candidate_nc reference_nc nccmp_options exclude_vars))
  = [command_list candidate_nc reference_nc nccmp_options exclude_vars].
Proof.
  unfold compare_nc_nccmp, run, bind, emit, lift, ret. simpl.
  destruct (subprocess_run w _) as [proc|e]; simpl; [|reflexivity].
  destruct (returncode proc =? 0)%Z; simpl; [reflexivity|].
  destruct (Utf8.decode (stdout proc)) as [output|e]; simpl; [|reflexivity].
  destruct (read_table w output); reflexivity.
Qed.

(** The outcomes of the pair comparator on the paths the code guards.
    Once the subprocess has exited: with status 0
    the function returns [None] and warns of nothing; with another
    status and an output that decodes as UTF-8 it returns the parsed
    table, or, when parsing fails, warns once and returns the
    subprocess object.  In each of these cases it returns. *)
Theorem compare_nc_nccmp_outcome candidate_nc reference_nc nccmp_options exclude_vars proc :
  let cmd := command_list candidate_nc reference_nc nccmp_options exclude_vars in
  let out := compare_nc_nccmp w candidate_nc reference_nc nccmp_options exclude_vars in
  subprocess_run w cmd = Ok proc ->
  (returncode proc = 0%Z -> out = ([Spawn cmd], Ok RetNone)) /\
  (returncode proc <> 0%Z ->
   forall output, Utf8.decode (stdout proc) = Ok output ->
     match read_table w output with
     | Some table => out = ([Spawn cmd], Ok (RetTable table))
     | None => out = ([Spawn cmd; Warn parse_warning], Ok (RetProc proc))
     end).
Proof.
  intros cmd out Hrun. subst out.
  unfold compare_nc_nccmp, run, bind, emit, lift, ret. fold cmd.
  rewrite Hrun. simpl. split.
  - intros H0. rewrite H0. reflexivity.
  - intros Hne output Hdec.
    apply Z.eqb_neq in Hne. rewrite Hne. simpl. rewrite Hdec.
    destruct (read_table w output); reflexivity.
Qed.

(** C2, as amended.  The one command the pair comparator spawns is
    the tool name, the flags in order, [-S], the exclusion argument
    whenever an exclusion list was passed (the text [-x ] followed by
    the comma-joined names, also for an empty list), the candidate and
    the reference. *)
Theorem compare_nc_nccmp_arguments candidate_nc reference_nc nccmp_options exclude_vars :
  spawned (fst (compare_nc_nccmp w candidate_nc reference_nc nccmp_options exclude_vars))
  = [ "nccmp" :: nccmp_options ++ "-S" ::
        match exclude_vars with
        | Some vs => [("-x " ++ join "," vs)%string]
        | None => []
        end ++ [str_of candidate_nc; str_of reference_nc] ].
Proof.
  rewrite compare_nc_nccmp_spawned, command_list_shape. reflexivity.
Qed.

Section FileSet.
Variable first : PosixPath.
Variables (nccmp_options : list str) (exclude_vars : option (list str)).


Lemma compare_each_spawned candidate_files :
  forall output_list log l,
    compare_each w (parent first) candidate_files nccmp_options exclude_vars output_list
    = (log, Ok l) ->
    spawned log =
    map (fun c => command_list (OfPath c) (OfPath (reference_of first c))
                    nccmp_options exclude_vars)
        (filter (matched w first) candidate_files).
Proof.
  induction candidate_files as [|c rest IH]; intros output_list log l H.
  - simpl in H. inversion H. reflexivity.
  - simpl in H.
    change (joinpath (parent first) (name c)) with (reference_of first c) in H.
    change (is_file w (reference_of first c)) with (matched w first c) in H.
    unfold bind at 1, emit in H. simpl in H.
    simpl. destruct (matched w first c) eqn:Hm.
    + unfold bind in H.
      pose proof (compare_nc_nccmp_spawned (OfPath c) (OfPath (reference_of first c))
                    nccmp_options exclude_vars) as Hs.
      destruct (compare_nc_nccmp w (OfPath c) (OfPath (reference_of first c))
                  nccmp_options exclude_vars) as [lg [v|e]]; simpl in Hs.
      * destruct (compare_each w (parent first) rest nccmp_options exclude_vars
                    (output_list ++ [v])) as [lg' r'] eqn:Hrest.
        inversion H; subst. simpl.
        rewrite spawned_app, Hs. simpl. f_equal.
        eapply IH. exact Hrest.
      * inversion H.
    + unfold bind in H. simpl in H.
      destruct (compare_each w (parent first) rest nccmp_options exclude_vars output_list)
        as [lg' r'] eqn:Hrest.
      inversion H; subst. simpl. eapply IH. exact Hrest.
Qed.

End FileSet.



(** C4, as amended.  With a non-empty reference list and a call that
    returns, a pair comparison is spawned for exactly those candidates
    for which the file named like the candidate inside the parent
    directory of the first reference file exists, in candidate order;
    the other members of the reference list are not consulted. *)
Theorem compare_ncfiles_compared candidate_files reference_files first rest
    nccmp_options exclude_vars log output_list :
  reference_files = first :: rest ->
  compare_ncfiles w candidate_files reference_files nccmp_options exclude_vars
  = (log, Ok output_list) ->
  spawned log =
  map (fun c => command_list (OfPath c) (OfPath (joinpath (parent first) (name c)))
                  nccmp_options exclude_vars)
      (filter (fun c => is_file w (joinpath (parent first) (name c))) candidate_files).
Proof.
  intros Href H. subst reference_files. unfold compare_ncfiles in H.
  exact (compare_each_spawned first nccmp_options exclude_vars candidate_files [] H).
Qed.

(** C9.  With an empty reference list the set comparator raises
    [IndexError] before anything else happens: no file test, no
    subprocess, no warning, whatever the candidates are. *)
Theorem compare_ncfiles_no_reference candidate_files nccmp_options exclude_vars :
  compare_ncfiles w candidate_files [] nccmp_options exclude_vars
  = ([], Raise IndexError).
Proof. reflexivity. Qed.


End World.

Import Scenarios.

(** C1.  The claim that the pair comparator never raises on a non-zero
    exit, and then returns the parsed table or, failing that, the raw
    subprocess object, is what the docstring and the guarded parser say;
    the code breaks it at this input.  The subprocess exits with status 1
    and its output is the single byte FF: the decoding on line 56, which
    sits before the [try], raises [UnicodeDecodeError], and neither a
    table nor the subprocess object is returned. *)
Lemma compare_nc_nccmp_garbled_output_raises :
  subprocess_run garbled
    (command_list (OfStr "run/a.nc") (OfStr "ref/a.nc") default_nccmp_options None)
  = Ok (mkProc
          (command_list (OfStr "run/a.nc") (OfStr "ref/a.nc") default_nccmp_options None)
          1 (String (ascii_of_N 255) "") "")
  /\ snd (compare_nc_nccmp garbled (OfStr "run/a.nc") (OfStr "ref/a.nc")
            default_nccmp_options None)
     = Raise UnicodeDecodeError.
Proof. split; reflexivity. Qed.

Lemma compare_nc_nccmp_outcome_witness :
  compare_nc_nccmp identical (OfStr "run/a.nc") (OfStr "ref/a.nc")
    default_nccmp_options None
  = ([Spawn ["nccmp"; "--data"; "--metadata"; "--force"; "--quiet"; "-S";
             "run/a.nc"; "ref/a.nc"]],
     Ok RetNone)
  /\ snd (compare_nc_nccmp differing (OfStr "run/a.nc") (OfStr "ref/a.nc")
            default_nccmp_options None)
     = Ok (RetTable [["Variable"; "Max"]; ["T"; "0.5"]])
  /\ compare_nc_nccmp silent (OfStr "run/a.nc") (OfStr "ref/a.nc") [] None
     = ([Spawn ["nccmp"; "-S"; "run/a.nc"; "ref/a.nc"]; Warn parse_warning],
        Ok (RetProc (mkProc ["nccmp"; "-S"; "run/a.nc"; "ref/a.nc"] 2 "" ""))).
Proof.
  split; [|split].
  - apply (proj1 (compare_nc_nccmp_outcome identical (OfStr "run/a.nc") (OfStr "ref/a.nc")
                    default_nccmp_options None eq_refl)).
    reflexivity.
  - pose proof (proj2 (compare_nc_nccmp_outcome differing (OfStr "run/a.nc")
                         (OfStr "ref/a.nc") default_nccmp_options None eq_refl)) as H.
    simpl in H. rewrite (H ltac:(discriminate) _ eq_refl). reflexivity.
  - apply (proj2 (compare_nc_nccmp_outcome silent (OfStr "run/a.nc") (OfStr "ref/a.nc")
                    [] None eq_refl)
             ltac:(simpl; discriminate) "" eq_refl).
Defined.

(** C2 as stated fails: an exclusion list that is passed but empty
    still puts an exclusion argument on the command line. *)
Lemma compare_nc_nccmp_empty_exclusion :
  spawned (fst (compare_nc_nccmp identical (OfStr "run/a.nc") (OfStr "ref/a.nc")
                  default_nccmp_options (Some [])))
  = [["nccmp"; "--data"; "--metadata"; "--force"; "--quiet"; "-S"; "-x ";
      "run/a.nc"; "ref/a.nc"]]
  /\ spawned (fst (compare_nc_nccmp identical (OfStr "run/a.nc") (OfStr "ref/a.nc")
                     default_nccmp_options (Some [])))
     <> [spec_command_list (OfStr "run/a.nc") (OfStr "ref/a.nc")
           default_nccmp_options (Some [])].
Proof. split; [reflexivity|]. intro H. vm_compute in H. discriminate H. Qed.



(** C4 as stated fails: a candidate is compared although no reference
    of its name was supplied, because the file exists in the directory
    of the first reference; and a candidate whose name was supplied is
    not compared, because its reference lies in another directory. *)
Lemma compare_ncfiles_ignores_membership :
  spec_matched [of_str "/ref/b.nc"] (of_str "/run/c.nc") = false
  /\ spawned (fst (compare_ncfiles identical [of_str "/run/c.nc"] [of_str "/ref/b.nc"]
                     [] None))
     = [["nccmp"; "-S"; "/run/c.nc"; "/ref/c.nc"]]
  /\ spec_matched [of_str "/ref/b.nc"; of_str "/other/d.nc"] (of_str "/run/d.nc") = true
  /\ compare_ncfiles identical [of_str "/run/d.nc"]
       [of_str "/ref/b.nc"; of_str "/other/d.nc"] [] None
     = ([IsFile (of_str "/ref/d.nc"); Warn "/run/d.ncnot found in /ref"], Ok []).
Proof. repeat split; reflexivity. Qed.

Lemma compare_ncfiles_compared_witness :
  spawned (fst (compare_ncfiles identical candidates references [] None))
  = [["nccmp"; "-S"; "/run/b.nc"; "/ref/b.nc"];
     ["nccmp"; "-S"; "/run/c.nc"; "/ref/c.nc"]].
Proof.
  rewrite (@compare_ncfiles_compared Table identical candidates references
             (of_str "/ref/b.nc") [of_str "/ref/c.nc"] [] None
             (fst (compare_ncfiles identical candidates references [] None))
             [RetNone; RetNone] eq_refl eq_refl).
  reflexivity.
Defined.

End NccmpFacts.

(** ** The path relativizer *)
Unset Implicit Arguments.

Module RelativeFacts.
Import Relative.

Ltac run_st :=
  unfold bind, ret, throw, lift, get_attr, set_attr in *; simpl in *.

Lemma getattr_setattr_same (o : obj) (attr : str) (v : value) :
  getattr (setattr o attr v) attr = Some v.
Proof.
  induction o as [|[k x] o IH]; simpl.
  - rewrite String.eqb_refl. reflexivity.
  - destruct (k =? attr)%string eqn:E; simpl; rewrite E; [reflexivity|exact IH].
Qed.

Lemma getattr_setattr_other (o : obj) (attr other : str) (v : value) :
  other <> attr -> getattr (setattr o attr v) other = getattr o other.
Proof.
  intros Hne. induction o as [|[k x] o IH]; simpl.
  - destruct (attr =? other)%string eqn:E; [|reflexivity].
    apply String.eqb_eq in E. congruence.
  - destruct (k =? attr)%string eqn:E; simpl.
    + apply String.eqb_eq in E. subst k.
      destruct (attr =? other)%string eqn:E'; [|reflexivity].
      apply String.eqb_eq in E'. congruence.
    + rewrite IH. reflexivity.
Qed.

(** *** [dir] lists every attribute once *)

Lemma mem_In (a : str) (l : list str) : mem a l = true <-> In a l.
Proof.
  unfold mem. rewrite existsb_exists. split.
  - intros [x [Hin E]]. apply String.eqb_eq in E. subst. exact Hin.
  - intros Hin. exists a. split; [exact Hin|apply String.eqb_refl].
Qed.

Lemma insert_sorted_In (a x : str) (l : list str) :
  In x (insert_sorted a l) <-> x = a \/ In x l.
Proof.
  induction l as [|y l IH]; simpl.
  - intuition congruence.
  - destruct (String.leb a y); simpl; rewrite ?IH; intuition congruence.
Qed.

Lemma insert_sorted_NoDup (a : str) (l : list str) :
  ~ In a l -> NoDup l -> NoDup (insert_sorted a l).
Proof.
  induction l as [|y l IH]; intros Hnin Hnd; simpl.
  - constructor; [intros []|constructor].
  - destruct (String.leb a y).
    + constructor; assumption.
    + inversion Hnd as [|? ? Hy Hl]; subst. constructor.
      * rewrite insert_sorted_In. intros [E|Hin]; [|contradiction].
        subst y. apply Hnin. left. reflexivity.
      * apply IH; [|assumption]. intros Hin. apply Hnin. right. exact Hin.
Qed.

Lemma dir_NoDup (o : obj) : NoDup (dir o).
Proof.
  induction o as [|[k x] o IH]; simpl; [constructor|].
  destruct (mem k (dir o)) eqn:E; [exact IH|].
  apply insert_sorted_NoDup; [|exact IH].
  intros Hin. apply mem_In in Hin. congruence.
Qed.

Lemma dir_In (o : obj) (attr : str) (v : value) :
  getattr o attr = Some v -> In attr (dir o).
Proof.
  induction o as [|[k x] o IH]; simpl; [discriminate|].
  intros H. destruct (k =? attr)%string eqn:E.
  - apply String.eqb_eq in E. subst k.
    destruct (mem attr (dir o)) eqn:M.
    + apply mem_In. exact M.
    + apply insert_sorted_In. left. reflexivity.
  - specialize (IH H).
    destruct (mem k (dir o)); [exact IH|].
    apply insert_sorted_In. right. exact IH.
Qed.

(** *** [relative_to] *)





(** *** The loop over the items of a list-like attribute *)

Lemma collect_other wrap basepath attr other :
  other <> attr ->
  forall items relative_list o o' r,
    collect wrap basepath attr items relative_list o = (o', r) ->
    getattr o' other = getattr o other.
Proof.
  intros Hne. induction items as [|item rest IH]; intros relative_list o o' r H.
  - simpl in H. run_st. inversion H. reflexivity.
  - simpl in H. destruct (is_path_item item).
    + run_st. destruct (item_relative_to item basepath) as [rv|e].
      * apply IH in H. rewrite H. apply getattr_setattr_other. exact Hne.
      * inversion H. reflexivity.
    + eapply IH. exact H.
Qed.

Lemma collect_spec wrap basepath attr :
  forall items relative_list o o' r,
    collect wrap basepath attr items relative_list o = (o', r) ->
    exists k collected,
      relative_forms basepath (firstn k items) collected
      /\ (collected = [] -> o' = o)
      /\ (collected <> [] -> getattr o' attr = Some (wrap (relative_list ++ collected)))
      /\ (r = Ok tt -> firstn k items = items).
Proof.
  unfold relative_forms.
  induction items as [|item rest IH]; intros relative_list o o' r H.
  - simpl in H. run_st. inversion H; subst.
    exists 0, []. repeat split; try constructor; congruence.
  - simpl in H. destruct (is_path_item item) eqn:Hitem.
    + run_st. destruct (item_relative_to item basepath) as [rv|e] eqn:Hrel.
      * destruct (IH _ _ _ _ H) as (k & collected & Hforms & Hnil & Hcons & Hall).
        exists (S k), (rv :: collected). simpl. rewrite Hitem.
        split; [constructor; assumption|].
        split; [discriminate|].
        split.
        -- intros _. destruct collected as [|c cs].
           ++ rewrite (Hnil eq_refl). apply getattr_setattr_same.
           ++ rewrite Hcons by discriminate. rewrite <- app_assoc. reflexivity.
        -- intros Hr. rewrite (Hall Hr). reflexivity.
      * inversion H; subst. exists 0, []. simpl.
        repeat split; try constructor; congruence.
    + destruct (IH _ _ _ _ H) as (k & collected & Hforms & Hnil & Hcons & Hall).
      exists (S k), collected. simpl. rewrite Hitem.
      repeat split; try assumption.
      intros Hr. rewrite (Hall Hr). reflexivity.
Qed.

(** *** One attribute *)

Lemma relativize_attr_other basepath attr other o o' r :
  other <> attr ->
  relativize_attr basepath attr o = (o', r) ->
  getattr o' other = getattr o other.
Proof.
  intros Hne H. unfold relativize_attr in H. run_st.
  destruct (getattr o attr) as [v|]; [|inversion H; reflexivity].
  destruct v; simpl in H;
    try (inversion H; reflexivity).
  - (* a path *)
    destruct (relative_path p basepath); inversion H; subst;
      [apply getattr_setattr_other; exact Hne|reflexivity].
  - (* a plain list *)
    destruct (collect VList basepath attr items [] o) as [o1 [[]|e]] eqn:Hc;
      inversion H; subst; eapply collect_other; eassumption.
  - (* a time series *)
    eapply collect_other; eassumption.
Qed.

Lemma relativize_attr_list basepath attr items o o' r :
  getattr o attr = Some (VList items) ->
  relativize_attr basepath attr o = (o', r) ->
  exists k collected,
    relative_forms basepath (firstn k items) collected
    /\ (collected = [] -> o' = o)
    /\ (collected <> [] -> getattr o' attr = Some (VList collected))
    /\ (r = Ok tt -> firstn k items = items).
Proof.
  intros Hget H. unfold relativize_attr in H. run_st. rewrite Hget in H.
  destruct (collect VList basepath attr items [] o) as [o1 r1] eqn:Hc.
  destruct (collect_spec _ _ _ _ _ _ _ _ Hc) as (k & collected & Hforms & Hnil & Hcons & Hall).
  exists k, collected.
  destruct r1 as [[]|e]; inversion H; subst; repeat split; assumption.
Qed.

Lemma relativize_attr_path basepath attr p o o' r :
  getattr o attr = Some (VPath p) ->
  relativize_attr basepath attr o = (o', r) ->
  match relative_path p basepath with
  | Ok rp => o' = setattr o attr (VPath rp) /\ r = Ok tt
  | Raise e => o' = o /\ r = Raise e
  end.
Proof.
  intros Hget H. unfold relativize_attr in H. run_st. rewrite Hget in H. simpl in H.
  destruct (relative_path p basepath); inversion H; subst; split; reflexivity.
Qed.

(** *** The descent into [simulation.domain] *)

Lemma descend_other rec other o o' r :
  other <> "simulation" ->
  descend rec o = (o', r) ->
  getattr o' other = getattr o other.
Proof.
  intros Hne H. unfold descend in H. run_st.
  destruct (getattr o "simulation") as [v|]; [|inversion H; reflexivity].
  destruct v as [| | | | | | |sim]; try (inversion H; reflexivity).
  destruct (getattr sim "domain") as [d|]; [|inversion H; reflexivity].
  destruct d as [| | | | | | |domain]; try (inversion H; reflexivity).
  destruct (getattr domain "domain_top_dir") as [top|]; [|inversion H; reflexivity].
  destruct (rec domain top) as [domain' r']. inversion H; subst.
  apply getattr_setattr_other. exact Hne.
Qed.

Lemma descend_not_object rec o v :
  getattr o "simulation" = Some v ->
  (forall attrs, v <> VObj attrs) ->
  descend rec o = (o, Raise AttributeError).
Proof.
  intros Hget Hv. unfold descend. run_st. rewrite Hget.
  destruct v; try reflexivity. exfalso. eapply Hv. reflexivity.
Qed.

(** *** The body of the loop and the loop *)

Lemma visit_other rec basepath attr other o o' r :
  other <> attr ->
  visit rec basepath attr o = (o', r) ->
  getattr o' other = getattr o other.
Proof.
  intros Hne H. unfold visit, bind in H.
  destruct (startswith attr "__") eqn:Hdunder; simpl in H.
  - unfold ret in H at 1.
    destruct (attr =? "simulation")%string eqn:Hsim.
    + apply String.eqb_eq in Hsim. subst attr. discriminate Hdunder.
    + inversion H. reflexivity.
  - destruct (relativize_attr basepath attr o) as [o1 [[]|e]] eqn:Hattr.
    + pose proof (relativize_attr_other _ _ _ _ _ _ Hne Hattr) as H1.
      destruct (attr =? "simulation")%string eqn:Hsim.
      * apply String.eqb_eq in Hsim. subst attr.
        rewrite (descend_other rec _ _ _ _ Hne H). exact H1.
      * inversion H; subst. exact H1.
    + inversion H; subst. eapply relativize_attr_other; eassumption.
Qed.

Lemma for_each_other rec basepath other :
  forall names o o' r,
    ~ In other names ->
    for_each (visit rec basepath) names o = (o', r) ->
    getattr o' other = getattr o other.
Proof.
  induction names as [|a rest IH]; intros o o' r Hnin H; simpl in H.
  - inversion H. reflexivity.
  - unfold bind in H.
    destruct (visit rec basepath a o) as [o1 [[]|e]] eqn:Hv.
    + rewrite (IH _ _ _ (fun Hin => Hnin (or_intror Hin)) H).
      eapply visit_other; [|exact Hv].
      intros E. apply Hnin. left. symmetry. exact E.
    + inversion H; subst. eapply visit_other; [|exact Hv].
      intros E. apply Hnin. left. symmetry. exact E.
Qed.

(** The visit of a plain-list attribute. *)
Lemma visit_list rec basepath attr items o o' r :
  getattr o attr = Some (VList items) ->
  visit rec basepath attr o = (o', r) ->
  exists k collected,
    relative_forms basepath (firstn k items) collected
    /\ (collected = [] -> getattr o' attr = Some (VList items))
    /\ (collected <> [] -> getattr o' attr = Some (VList collected))
    /\ (r = Ok tt -> startswith attr "__" = false -> firstn k items = items).
Proof.
  intros Hget H. unfold visit, bind in H.
  destruct (startswith attr "__") eqn:Hdunder; simpl in H.
  - unfold ret in H at 1.
    destruct (attr =? "simulation")%string eqn:Hsim.
    + apply String.eqb_eq in Hsim. subst attr. discriminate Hdunder.
    + inversion H; subst. exists 0, []. simpl.
      repeat split; try constructor; congruence.
  - destruct (relativize_attr basepath attr o) as [o1 r1] eqn:Hattr.
    destruct (relativize_attr_list _ _ _ _ _ _ Hget Hattr)
      as (k & collected & Hforms & Hnil & Hcons & Hall).
    assert (Hkeep : collected = [] -> getattr o1 attr = Some (VList items))
      by (intros E; rewrite (Hnil E); exact Hget).
    exists k, collected.
    destruct r1 as [[]|e].
    + destruct (attr =? "simulation")%string eqn:Hsim.
      * apply String.eqb_eq in Hsim. subst attr.
        assert (Hlist : exists l, getattr o1 "simulation" = Some (VList l)).
        { destruct collected; [exists items; apply Hkeep; reflexivity|].
          eexists. apply Hcons. discriminate. }
        destruct Hlist as [l Hl].
        rewrite (descend_not_object rec o1 _ Hl) in H by discriminate.
        inversion H; subst. repeat split; try assumption. discriminate.
      * inversion H; subst. repeat split; try assumption.
        intros _ _. apply Hall. reflexivity.
    + inversion H; subst. repeat split; try assumption. discriminate.
Qed.

Lemma for_each_list rec basepath attr items :
  forall names o o' r,
    NoDup names ->
    getattr o attr = Some (VList items) ->
    for_each (visit rec basepath) names o = (o', r) ->
    exists k collected,
      relative_forms basepath (firstn k items) collected
      /\ (collected = [] -> getattr o' attr = Some (VList items))
      /\ (collected <> [] -> getattr o' attr = Some (VList collected))
      /\ (r = Ok tt -> In attr names -> startswith attr "__" = false ->
          firstn k items = items).
Proof.
  induction names as [|a rest IH]; intros o o' r Hnd Hget H; simpl in H.
  - inversion H; subst. exists 0, []. simpl.
    repeat split; try constructor; try congruence. intros _ [].
  - inversion Hnd as [|? ? Ha Hrest]; subst. unfold bind in H.
    destruct (visit rec basepath a o) as [o1 r1] eqn:Hv.
    destruct (String.eqb_spec a attr) as [E|Hne].
    + subst a.
      destruct (visit_list _ _ _ _ _ _ _ Hget Hv)
        as (k & collected & Hforms & Hnil & Hcons & Hall).
      exists k, collected.
      destruct r1 as [[]|e].
      * pose proof (for_each_other _ _ _ _ _ _ _ Ha H) as Hsame.
        rewrite Hsame. repeat split; try assumption.
        intros _ _ Hd. apply Hall; [reflexivity|exact Hd].
      * inversion H; subst. repeat split; try assumption. discriminate.
    + assert (Hget1 : getattr o1 attr = Some (VList items)).
      { rewrite (visit_other _ _ _ _ _ _ _ (fun E => Hne (eq_sym E)) Hv). exact Hget. }
      destruct r1 as [[]|e].
      * destruct (IH _ _ _ Hrest Hget1 H)
          as (k & collected & Hforms & Hnil & Hcons & Hall).
        exists k, collected. repeat split; try assumption.
        intros Hr [E|Hin] Hd; [contradiction|]. apply Hall; assumption.
      * inversion H; subst. exists 0, []. simpl.
        repeat split; try constructor; congruence.
Qed.

(** The visit of an attribute that holds a single path. *)
Lemma visit_path rec basepath attr p o o' r :
  getattr o attr = Some (VPath p) ->
  visit rec basepath attr o = (o', r) ->
  (getattr o' attr = Some (VPath p)
   \/ exists rp, relative_path p basepath = Ok rp /\ getattr o' attr = Some (VPath rp))
  /\ (r = Ok tt -> startswith attr "__" = false ->
      exists rp, relative_path p basepath = Ok rp /\ getattr o' attr = Some (VPath rp)).
Proof.
  intros Hget H. unfold visit, bind in H.
  destruct (startswith attr "__") eqn:Hdunder; simpl in H.
  - unfold ret in H at 1.
    destruct (attr =? "simulation")%string eqn:Hsim.
    + apply String.eqb_eq in Hsim. subst attr. discriminate Hdunder.
    + inversion H; subst. split; [left; exact Hget|discriminate].
  - destruct (relativize_attr basepath attr o) as [o1 r1] eqn:Hattr.
    pose proof (relativize_attr_path _ _ _ _ _ _ Hget Hattr) as Hp.
    destruct (relative_path p basepath) as [rp|e]; destruct Hp as [Ho1 Hr1]; subst o1 r1.
    + assert (Hnew : getattr (setattr o attr (VPath rp)) attr = Some (VPath rp))
        by apply getattr_setattr_same.
      destruct (attr =? "simulation")%string eqn:Hsim.
      * apply String.eqb_eq in Hsim. subst attr.
        rewrite (descend_not_object rec _ _ Hnew) in H by discriminate.
        inversion H; subst. split; [right; eauto|discriminate].
      * inversion H; subst. split; [right; eauto|eauto].
    + inversion H; subst. split; [left; exact Hget|discriminate].
Qed.

Lemma for_each_path rec basepath attr p :
  forall names o o' r,
    NoDup names ->
    getattr o attr = Some (VPath p) ->
    for_each (visit rec basepath) names o = (o', r) ->
    (getattr o' attr = Some (VPath p)
     \/ exists rp, relative_path p basepath = Ok rp /\ getattr o' attr = Some (VPath rp))
    /\ (r = Ok tt -> In attr names -> startswith attr "__" = false ->
        exists rp, relative_path p basepath = Ok rp /\ getattr o' attr = Some (VPath rp)).
Proof.
  induction names as [|a rest IH]; intros o o' r Hnd Hget H; simpl in H.
  - inversion H; subst. split; [left; exact Hget|intros _ []].
  - inversion Hnd as [|? ? Ha Hrest]; subst. unfold bind in H.
    destruct (visit rec basepath a o) as [o1 r1] eqn:Hv.
    destruct (String.eqb_spec a attr) as [E|Hne].
    + subst a. destruct (visit_path _ _ _ _ _ _ _ Hget Hv) as [Hany Hok].
      destruct r1 as [[]|e].
      * rewrite (for_each_other _ _ _ _ _ _ _ Ha H).
        split; [exact Hany|]. intros _ _ Hd. apply Hok; [reflexivity|exact Hd].
      * inversion H; subst. split; [exact Hany|discriminate].
    + assert (Hget1 : getattr o1 attr = Some (VPath p)).
      { rewrite (visit_other _ _ _ _ _ _ _ (fun E => Hne (eq_sym E)) Hv). exact Hget. }
      destruct r1 as [[]|e].
      * destruct (IH _ _ _ Hrest Hget1 H) as [Hany Hok].
        split; [exact Hany|].
        intros Hr [E|Hin] Hd; [contradiction|]. apply Hok; assumption.
      * inversion H; subst. split; [left; exact Hget1|discriminate].
Qed.

(** *** The whole call *)

Lemma make_relative_step depth run_object basepath base :
  effective_base run_object basepath = Some base ->
  __make_relative__ (S depth) run_object basepath
  = for_each (visit (__make_relative__ depth) base) (dir run_object) run_object.
Proof.
  intros Hbase. simpl. unfold bind, get_attr, ret.
  destruct basepath; simpl in Hbase;
    try (inversion Hbase; subst; reflexivity).
  rewrite Hbase. reflexivity.
Qed.

Lemma make_relative_no_base depth run_object basepath :
  effective_base run_object basepath = None ->
  __make_relative__ (S depth) run_object basepath = (run_object, Raise AttributeError).
Proof.
  intros Hbase. simpl. unfold bind, get_attr, ret.
  destruct basepath; simpl in Hbase; try discriminate Hbase.
  rewrite Hbase. reflexivity.
Qed.


Lemma filter_firstn_nil (A : Type) (f : A -> bool) (l : list A) :
  filter f l = [] -> forall k, filter f (firstn k l) = [].
Proof.
  induction l as [|x l IH]; intros H k; destruct k; simpl; try reflexivity.
  simpl in H. destruct (f x); [discriminate H|]. apply IH. exact H.
Qed.

(** A call that returns has made relative every single path held
    under a name that does not start with [__]. *)
Lemma make_relative_single_path depth run_object basepath base run_object' attr p :
  __make_relative__ depth run_object basepath = (run_object', Ok tt) ->
  effective_base run_object basepath = Some base ->
  startswith attr "__" = false ->
  getattr run_object attr = Some (VPath p) ->
  exists rp, relative_path p base = Ok rp
             /\ getattr run_object' attr = Some (VPath rp).
Proof.
  intros H Hbase Hdunder Hget.
  destruct depth as [|depth]; [discriminate H|].
  rewrite (make_relative_step depth _ _ _ Hbase) in H.
  destruct (for_each_path _ _ _ _ _ _ _ _ (dir_NoDup run_object) Hget H) as [_ Hok].
  apply Hok; [reflexivity| |exact Hdunder].
  eapply dir_In. exact Hget.
Qed.

(** C7, as amended.  When the call returns, every attribute whose name
    does not start with [__] and which holds a single path holds
    afterwards that path relative to the base, and every such attribute
    which holds a plain list of paths (or static files) holds afterwards
    the list of their relative forms, in order. *)
Theorem make_relative_paths depth run_object basepath base run_object' attr :
  __make_relative__ depth run_object basepath = (run_object', Ok tt) ->
  effective_base run_object basepath = Some base ->
  startswith attr "__" = false ->
  (forall p, getattr run_object attr = Some (VPath p) ->
     exists rp, relative_path p base = Ok rp
                /\ getattr run_object' attr = Some (VPath rp))
  /\ (forall items, getattr run_object attr = Some (VList items) ->
        forallb is_path_item items = true ->
        exists relative_list,
          Forall2 (fun item r => item_relative_to item base = Ok r) items relative_list
          /\ getattr run_object' attr = Some (VList relative_list)).
Proof.
  intros H Hbase Hdunder. split.
  - intros p Hget.
    exact (make_relative_single_path _ _ _ _ _ _ _ H Hbase Hdunder Hget).
  - destruct depth as [|depth]; [discriminate H|].
    rewrite (make_relative_step depth _ _ _ Hbase) in H.
    intros items Hget Hall.
    destruct (for_each_list _ _ _ _ _ _ _ _ (dir_NoDup run_object) Hget H)
      as (k & collected & Hforms & Hnil & Hcons & Hwhole).
    rewrite Hwhole in Hforms;
      [|reflexivity|eapply dir_In; exact Hget|exact Hdunder].
    unfold relative_forms in Hforms.
    rewrite forallb_filter_id in Hforms by exact Hall.
    exists collected. split; [exact Hforms|].
    destruct collected as [|c cs].
    + inversion Hforms; subst. apply Hnil. reflexivity.
    + apply Hcons. discriminate.
Qed.



Import Scenarios.

(** C7 as stated fails: a path held under a name that starts with
    [__] is skipped, and a path whose turn comes after an attribute at
    which the call raises is never reached. *)
Lemma make_relative_skips_or_stops :
  __make_relative__ 2 job (VStr "/a/b") = (job_relative, Ok tt)
  /\ getattr job_relative "__origin" = Some (VPath (of_str "/a/b/c/d"))
  /\ __make_relative__ 2 unset_job (VStr "/a/b") = (unset_job, Raise AttributeError)
  /\ getattr unset_job "workdir" = Some (VPath (of_str "/a/b/c/d")).
Proof. repeat split; reflexivity. Qed.

Lemma make_relative_paths_witness :
  getattr (fst (__make_relative__ 2 job (VStr "/a/b"))) "restart_file"
  = Some (VPath (of_str "c/d"))
  /\ getattr (fst (__make_relative__ 2 job (VStr "/a/b"))) "restart_files"
     = Some (VList [VPath (of_str "c/d"); VPath (of_str "c/e")]).
Proof.
  destruct (make_relative_paths 2 job (VStr "/a/b") (VStr "/a/b") job_relative
              "restart_file" eq_refl eq_refl eq_refl) as [Hpath _].
  destruct (make_relative_paths 2 job (VStr "/a/b") (VStr "/a/b") job_relative
              "restart_files" eq_refl eq_refl eq_refl) as [_ Hlist].
  destruct (Hpath _ eq_refl) as (rp & Hrp & Hget).
  destruct (Hlist _ eq_refl eq_refl) as (relative_list & _ & Hgets).
  vm_compute in Hrp. inversion Hrp; subst rp. split.
  - exact Hget.
  - change (fst (__make_relative__ 2 job (VStr "/a/b"))) with job_relative.
    rewrite Hgets. vm_compute in Hgets. inversion Hgets. reflexivity.
Defined.




End RelativeFacts.

(** ** The dataset opener and the namelist differ

    Both functions hand the deciding work to a library; what the module
    itself fixes is which values reach the library, and in which order. *)
Module DelegationFacts.
Import NwmDataset Namelist.

Section Xarray.
Variables Dataset Key Chunks : Type.
Variable xr : Xarray Dataset Key Chunks.
Variables (f1 f2 f3 : str) (d1 d2 d3 : Dataset) (T1 T2 : Key).
Hypothesis open1 : open_dataset xr f1 = Ok d1.
Hypothesis open2 : open_dataset xr f2 = Ok d2.
Hypothesis open3 : open_dataset xr f3 = Ok d3.
Hypothesis time1 : reference_time0 xr d1 = Ok T1.
Hypothesis time2 : reference_time0 xr d2 = Ok T1.
Hypothesis time3 : reference_time0 xr d3 = Ok T2.
Hypothesis same : key_eqb xr T1 T1 = true.
Hypothesis differ : key_eqb xr T1 T2 = false.

(** Two files of forecast [T1] and one of forecast [T2], in any of
    the orders that start with a [T1] file: [xr.concat] along [time]
    receives the two [T1] datasets in file order and the [T2] dataset
    alone, and [xr.concat] along [reference_time] receives the two
    results, [T1] first. *)
Lemma open_nwmdataset_two_forecasts (paths : list str) :
  paths = [f1; f2; f3] \/ paths = [f1; f3; f2] ->
  open_nwmdataset xr paths None =
  match concat xr "time" [d1; d2] with
  | Raise e => Raise e
  | Ok forecast1 =>
      match concat xr "time" [d3] with
      | Raise e => Raise e
      | Ok forecast2 => concat xr "reference_time" [forecast1; forecast2]
      end
  end.
Proof.
  intros [-> | ->]; unfold open_nwmdataset; simpl;
    rewrite ?open1, ?open2, ?open3, ?time1, ?time2, ?time3; simpl;
    repeat (progress (rewrite ?same, ?differ; simpl));
    destruct (concat xr "time" [d1; d2]) as [forecast1|]; try reflexivity; simpl;
    destruct (concat xr "time" [d3]) as [forecast2|]; try reflexivity; simpl;
    destruct (concat xr "reference_time" [forecast1; forecast2]); reflexivity.
Qed.

End Xarray.

Section Libraries.
Variables Tree Diff Dict Kwargs : Type.
Variable lib : Libraries Tree Diff Dict Kwargs.

(** Diffing a file against itself hands [DeepDiff] the tree of that
    file twice, with [ignore_order=True]. *)
Lemma diff_namelist_same_file (namelist : str) (kwargs : Kwargs) (tree : Tree) :
  f90nml_read lib namelist = Ok tree ->
  diff_namelist lib namelist namelist kwargs =
  match DeepDiff lib tree tree true kwargs with
  | Raise e => Raise e
  | Ok differences => Ok (dict_of lib differences)
  end.
Proof. intros H. unfold diff_namelist. rewrite H. reflexivity. Qed.

End Libraries.

End DelegationFacts.

(** ** Sanity checks of the path model *)
Module PathlibFacts.

Example of_str_abcd : of_str "/a/b/c/d" = mkPath "/" ["a"; "b"; "c"; "d"].
Proof. reflexivity. Qed.

Example of_str_normalises :
  of_str "///a//b/./c/" = mkPath "/" ["a"; "b"; "c"]
  /\ of_str "//a" = mkPath "//" ["a"]
  /\ to_str (of_str "") = ".".
Proof. repeat split; reflexivity. Qed.

Example relative_to_abcd :
  relative_to (of_str "/a/b/c/d") (of_str "/a/b") = Some (of_str "c/d").
Proof. reflexivity. Qed.

Example relative_to_outside :
  relative_to (of_str "/a/x") (of_str "/a/b") = None
  /\ relative_to (of_str "c/d") (of_str "/a/b") = None.
Proof. split; reflexivity. Qed.

Example parent_name_joinpath :
  to_str (parent (of_str "/ref/out/x.nc")) = "/ref/out"
  /\ name (of_str "/run/out/x.nc") = "x.nc"
  /\ to_str (joinpath (of_str "/ref/out") "x.nc") = "/ref/out/x.nc".
Proof. repeat split; reflexivity. Qed.

Example decode_checks :
  Utf8.decode "Variable" = Ok "Variable"
  /\ Utf8.decode (String (ascii_of_N 195) (String (ascii_of_N 169) "")) 
     = Ok (String (ascii_of_N 195) (String (ascii_of_N 169) ""))
  /\ Utf8.decode (String (ascii_of_N 255) "") = Raise UnicodeDecodeError
  /\ Utf8.decode (String (ascii_of_N 192) (String (ascii_of_N 128) ""))
     = Raise UnicodeDecodeError.
Proof. repeat split; reflexivity. Qed.

End PathlibFacts.

(** * Further properties *)

(** ** More on the pair comparator *)
Module NccmpMore.
Import Nccmp NccmpLog.

Lemma is_ascii_well_formed (b : bytes) : is_ascii b = true -> Utf8.well_formed b = true.
Proof.
  induction b as [|c rest IH]; simpl; [reflexivity|].
  intros H. apply andb_true_iff in H. destruct H as [Hc Hrest].
  rewrite Hc. apply IH. exact Hrest.
Qed.

Section World.
Variable DataFrame : Type.
Variable w : World DataFrame.
Variables (candidate_nc reference_nc : pathlike).
Variables (nccmp_options : list str) (exclude_vars : option (list str)).

Let cmd := command_list candidate_nc reference_nc nccmp_options exclude_vars.
Let out := compare_nc_nccmp w candidate_nc reference_nc nccmp_options exclude_vars.

Ltac run_pair :=
  subst out; unfold compare_nc_nccmp, run, bind, emit, lift, ret; fold cmd; simpl.

(** X1.  The pair comparator returns [None] exactly when the subprocess
    ran and exited with status 0. *)
Theorem compare_nc_nccmp_none_iff_zero :
  snd out = Ok RetNone
  <-> exists proc, subprocess_run w cmd = Ok proc /\ returncode proc = 0%Z.
Proof.
  run_pair. destruct (subprocess_run w cmd) as [proc|e]; simpl.
  - destruct (returncode proc =? 0)%Z eqn:Hz; simpl.
    + split; [intros _|reflexivity].
      exists proc. split; [reflexivity|]. apply Z.eqb_eq. exact Hz.
    + split.
      * destruct (Utf8.decode (stdout proc)) as [output|e]; simpl; [|discriminate].
        destruct (read_table w output); simpl; discriminate.
      * intros (proc' & Hrun & Hzero). inversion Hrun; subst proc'.
        apply Z.eqb_eq in Hzero. congruence.
  - split; [discriminate|]. intros (proc & Hrun & _). discriminate Hrun.
Qed.

(** X2.  The pair comparator warns at most once, with the message about
    the unreadable output, and it does so exactly when it returns the raw
    subprocess object; the object it returns is then the completed
    process of the command it spawned, and its exit status is not 0. *)
Theorem compare_nc_nccmp_warns_iff_raw :
  (warnings (fst out) = [parse_warning] <-> exists proc, snd out = Ok (RetProc proc))
  /\ (warnings (fst out) = [] \/ warnings (fst out) = [parse_warning])
  /\ (forall proc, snd out = Ok (RetProc proc) ->
        subprocess_run w cmd = Ok proc /\ returncode proc <> 0%Z).
Proof.
  run_pair. destruct (subprocess_run w cmd) as [proc|e]; simpl.
  - destruct (returncode proc =? 0)%Z eqn:Hz; simpl.
    + repeat split; try discriminate; try (left; reflexivity).
      intros (p & Hp). discriminate Hp.
    + apply Z.eqb_neq in Hz.
      destruct (Utf8.decode (stdout proc)) as [output|e]; simpl.
      * destruct (read_table w output); simpl.
        -- repeat split; try discriminate; try (left; reflexivity).
           intros (p & Hp). discriminate Hp.
        -- repeat split; try (right; reflexivity).
           ++ intros _. exists proc. reflexivity.
           ++ inversion H; subst. reflexivity.
           ++ inversion H; subst. exact Hz.
      * repeat split; try discriminate; try (left; reflexivity).
        intros (p & Hp). discriminate Hp.
  - repeat split; try discriminate; try (left; reflexivity).
    intros (p & Hp). discriminate Hp.
Qed.

(** X3.  The pair comparator raises in two cases only: the subprocess
    could not be run, or it exited with a non-zero status and its output
    is not UTF-8.  In both cases the exception is the one of that step and
    nothing was warned. *)
Theorem compare_nc_nccmp_raises_only (e : exn) :
  snd out = Raise e ->
  (subprocess_run w cmd = Raise e
   \/ exists proc, subprocess_run w cmd = Ok proc
                   /\ returncode proc <> 0%Z
                   /\ Utf8.decode (stdout proc) = Raise e
                   /\ e = UnicodeDecodeError)
  /\ fst out = [Spawn cmd].
Proof.
  run_pair. destruct (subprocess_run w cmd) as [proc|e'] eqn:Hrun; simpl.
  - destruct (returncode proc =? 0)%Z eqn:Hz; simpl; [discriminate|].
    apply Z.eqb_neq in Hz.
    destruct (Utf8.decode (stdout proc)) as [output|e'] eqn:Hdec; simpl.
    + destruct (read_table w output); simpl; discriminate.
    + intros H. inversion H; subst e'. split; [|reflexivity].
      right. exists proc. repeat split; try assumption.
      unfold Utf8.decode in Hdec.
      destruct (Utf8.well_formed (stdout proc)); inversion Hdec; reflexivity.
  - intros H. inversion H; subst e'. split; [left|]; reflexivity.
Qed.

(** X4.  When the subprocess ran and every byte of its output is below
    128, the pair comparator returns, whatever the exit status. *)
Theorem compare_nc_nccmp_ascii_returns (proc : CompletedProcess) :
  subprocess_run w cmd = Ok proc ->
  is_ascii (stdout proc) = true ->
  exists result, snd out = Ok result.
Proof.
  intros Hrun Hascii. run_pair. rewrite Hrun. simpl.
  destruct (returncode proc =? 0)%Z; simpl; [eexists; reflexivity|].
  unfold Utf8.decode. rewrite (is_ascii_well_formed _ Hascii). simpl.
  destruct (read_table w (stdout proc)); simpl; eexists; reflexivity.
Qed.

End World.

Import Scenarios.

Lemma compare_nc_nccmp_none_iff_zero_witness :
  snd (compare_nc_nccmp identical (OfStr "run/a.nc") (OfStr "ref/a.nc") [] None)
  = Ok RetNone.
Proof.
  apply (proj2 (compare_nc_nccmp_none_iff_zero Table identical
                  (OfStr "run/a.nc") (OfStr "ref/a.nc") [] None)).
  exists (mkProc ["nccmp"; "-S"; "run/a.nc"; "ref/a.nc"] 0 "" "").
  split; reflexivity.
Defined.

Lemma compare_nc_nccmp_warns_iff_raw_witness :
  subprocess_run silent (command_list (OfStr "run/a.nc") (OfStr "ref/a.nc") [] None)
  = Ok (mkProc ["nccmp"; "-S"; "run/a.nc"; "ref/a.nc"] 2 "" "")
  /\ returncode (mkProc ["nccmp"; "-S"; "run/a.nc"; "ref/a.nc"] 2 "" "") <> 0%Z.
Proof.
  apply (proj2 (proj2 (compare_nc_nccmp_warns_iff_raw Table silent
                         (OfStr "run/a.nc") (OfStr "ref/a.nc") [] None))).
  reflexivity.
Defined.

Lemma compare_nc_nccmp_raises_only_witness :
  (subprocess_run garbled (command_list (OfStr "run/a.nc") (OfStr "ref/a.nc") [] None)
   = Raise UnicodeDecodeError
   \/ exists proc,
        subprocess_run garbled (command_list (OfStr "run/a.nc") (OfStr "ref/a.nc") [] None)
        = Ok proc
        /\ returncode proc <> 0%Z
        /\ Utf8.decode (stdout proc) = Raise UnicodeDecodeError
        /\ UnicodeDecodeError = UnicodeDecodeError)
  /\ fst (compare_nc_nccmp garbled (OfStr "run/a.nc") (OfStr "ref/a.nc") [] None)
     = [Spawn (command_list (OfStr "run/a.nc") (OfStr "ref/a.nc") [] None)].
Proof.
  apply (compare_nc_nccmp_raises_only Table garbled
           (OfStr "run/a.nc") (OfStr "ref/a.nc") [] None UnicodeDecodeError).
  reflexivity.
Defined.

Lemma compare_nc_nccmp_ascii_returns_witness :
  exists result,
    snd (compare_nc_nccmp differing (OfStr "run/a.nc") (OfStr "ref/a.nc") [] None)
    = Ok result.
Proof.
  apply (compare_nc_nccmp_ascii_returns Table differing
           (OfStr "run/a.nc") (OfStr "ref/a.nc") [] None
           (mkProc ["nccmp"; "-S"; "run/a.nc"; "ref/a.nc"] 1
              ("Variable Max" ++ String newline "T 0.5")%string "")).
  - reflexivity.
  - reflexivity.
Defined.

End NccmpMore.

(** ** More on the set comparator *)
Module NcfilesMore.
Import Nccmp NccmpLog.

Lemma file_tests_app (l1 l2 : list event) :
  file_tests (l1 ++ l2) = file_tests l1 ++ file_tests l2.
Proof.
  induction l1 as [|ev l1 IH]; simpl; [reflexivity|].
  destruct ev; simpl; rewrite IH; reflexivity.
Qed.

Lemma split_without_slash (s : str) : has_slash s = false -> split "/" s = [s].
Proof.
  induction s as [|c rest IH]; simpl; [reflexivity|].
  intros H. apply orb_false_iff in H. destruct H as [Hc Hrest].
  rewrite Hc, (IH Hrest). reflexivity.
Qed.

Lemma prefix_cons (a b : ascii) (s1 s2 : string) :
  String.prefix (String a s1) (String b s2)
  = if ascii_dec a b then String.prefix s1 s2 else false.
Proof. reflexivity. Qed.

Lemma parse_root_without_slash (s : str) : has_slash s = false -> parse_root s = "".
Proof.
  intros H. unfold parse_root, startswith.
  destruct s as [|c rest]; [reflexivity|].
  simpl in H. apply orb_false_iff in H. destruct H as [Hc _].
  rewrite !prefix_cons.
  destruct (ascii_dec "/" c) as [E|_]; [|reflexivity].
  subst c. discriminate Hc.
Qed.

Lemma of_str_plain_name (s : str) : plain_name s = true -> of_str s = mkPath "" [s].
Proof.
  unfold plain_name. intros H.
  apply andb_true_iff in H. destruct H as [H Hslash].
  apply negb_true_iff in Hslash.
  unfold of_str. rewrite (parse_root_without_slash _ Hslash),
    (split_without_slash _ Hslash).
  simpl. unfold kept_component. rewrite H. reflexivity.
Qed.

(** X7.  The reference file looked up for a candidate whose name is a
    proper file name has that same name and lies directly in the parent
    directory of the first reference file; the directory of the candidate
    plays no role.  For a candidate without a name (the root, or the
    empty path) the reference directory itself is what is looked up. *)
Theorem reference_of_candidate (first file_candidate : PosixPath) :
  (plain_name (name file_candidate) = true ->
   name (reference_of first file_candidate) = name file_candidate
   /\ parent (reference_of first file_candidate) = parent first)
  /\ (name file_candidate = "" ->
      reference_of first file_candidate = parent first).
Proof.
  unfold reference_of, joinpath. split.
  - intros H. rewrite (of_str_plain_name _ H). simpl.
    unfold name, parent. simpl. split.
    + apply last_last.
    + rewrite removelast_last. reflexivity.
  - intros H. rewrite H. simpl. rewrite app_nil_r. reflexivity.
Qed.

Section World.
Variable DataFrame : Type.
Variable w : World DataFrame.
Variables (nccmp_options : list str) (exclude_vars : option (list str)).

Lemma compare_nc_nccmp_no_file_test candidate_nc reference_nc :
  file_tests (fst (compare_nc_nccmp w candidate_nc reference_nc nccmp_options exclude_vars))
  = [].
Proof.
  unfold compare_nc_nccmp, run, bind, emit, lift, ret. simpl.
  destruct (subprocess_run w _) as [proc|e]; simpl; [|reflexivity].
  destruct (returncode proc =? 0)%Z; simpl; [reflexivity|].
  destruct (Utf8.decode (stdout proc)) as [output|e]; simpl; [|reflexivity].
  destruct (read_table w output); reflexivity.
Qed.

(** One step of the loop, spelled out. *)
Lemma compare_each_cons ref_dir c rest output_list :
  compare_each w ref_dir (c :: rest) nccmp_options exclude_vars output_list =
  if is_file w (joinpath ref_dir (name c)) then
    match compare_nc_nccmp w (OfPath c) (OfPath (joinpath ref_dir (name c)))
            nccmp_options exclude_vars with
    | (log1, Ok v) =>
        let (log2, r) :=
          compare_each w ref_dir rest nccmp_options exclude_vars (output_list ++ [v]) in
        (IsFile (joinpath ref_dir (name c)) :: log1 ++ log2, r)
    | (log1, Raise e) => (IsFile (joinpath ref_dir (name c)) :: log1, Raise e)
    end
  else
    let (log2, r) :=
      compare_each w ref_dir rest nccmp_options exclude_vars output_list in
    (IsFile (joinpath ref_dir (name c))
       :: Warn (not_found_warning c ref_dir) :: log2, r).
Proof.
  simpl. unfold bind, emit. simpl.
  destruct (is_file w (joinpath ref_dir (name c))).
  - destruct (compare_nc_nccmp w (OfPath c) (OfPath (joinpath ref_dir (name c)))
                nccmp_options exclude_vars) as [log1 [v|e]]; simpl.
    + destruct (compare_each w ref_dir rest nccmp_options exclude_vars
                  (output_list ++ [v])); reflexivity.
    + reflexivity.
  - simpl.
    destruct (compare_each w ref_dir rest nccmp_options exclude_vars output_list);
      reflexivity.
Qed.

(** What has been appended so far is carried through unchanged. *)
Lemma compare_each_carries ref_dir candidate_files :
  forall output_list,
    compare_each w ref_dir candidate_files nccmp_options exclude_vars output_list =
    let (log, r) :=
      compare_each w ref_dir candidate_files nccmp_options exclude_vars [] in
    (log, prepend output_list r).
Proof.
  induction candidate_files as [|c rest IH]; intros output_list.
  - simpl. unfold ret. simpl. rewrite app_nil_r. reflexivity.
  - rewrite !compare_each_cons.
    destruct (is_file w (joinpath ref_dir (name c))).
    + destruct (compare_nc_nccmp w (OfPath c) (OfPath (joinpath ref_dir (name c)))
                  nccmp_options exclude_vars) as [log1 [v|e]]; [|reflexivity].
      rewrite (IH (output_list ++ [v])), (IH ([] ++ [v])).
      destruct (compare_each w ref_dir rest nccmp_options exclude_vars [])
        as [log2 [l|e]]; simpl; [|reflexivity].
      rewrite <- app_assoc. reflexivity.
    + rewrite (IH output_list).
      destruct (compare_each w ref_dir rest nccmp_options exclude_vars [])
        as [log2 [l|e]]; reflexivity.
Qed.

Lemma compare_each_app ref_dir candidates1 candidates2 :
  forall output_list,
    compare_each w ref_dir (candidates1 ++ candidates2) nccmp_options exclude_vars
      output_list =
    match compare_each w ref_dir candidates1 nccmp_options exclude_vars output_list with
    | (log1, Ok l1) =>
        let (log2, r2) :=
          compare_each w ref_dir candidates2 nccmp_options exclude_vars l1 in
        (log1 ++ log2, r2)
    | (log1, Raise e) => (log1, Raise e)
    end.
Proof.
  induction candidates1 as [|c rest IH]; intros output_list.
  - simpl. unfold ret.
    destruct (compare_each w ref_dir candidates2 nccmp_options exclude_vars output_list);
      reflexivity.
  - rewrite <- app_comm_cons, !compare_each_cons.
    destruct (is_file w (joinpath ref_dir (name c))).
    + destruct (compare_nc_nccmp w (OfPath c) (OfPath (joinpath ref_dir (name c)))
                  nccmp_options exclude_vars) as [log1 [v|e]]; [|reflexivity].
      rewrite (IH (output_list ++ [v])).
      destruct (compare_each w ref_dir rest nccmp_options exclude_vars
                  (output_list ++ [v])) as [log2 [l|e]]; [|reflexivity].
      destruct (compare_each w ref_dir candidates2 nccmp_options exclude_vars l)
        as [log3 r3].
      simpl. rewrite <- app_assoc. reflexivity.
    + rewrite (IH output_list).
      destruct (compare_each w ref_dir rest nccmp_options exclude_vars output_list)
        as [log2 [l|e]]; [|reflexivity].
      destruct (compare_each w ref_dir candidates2 nccmp_options exclude_vars l)
        as [log3 r3].
      reflexivity.
Qed.

(** X5.  Comparing a candidate list made of two parts is comparing the
    first part and then the second: the logs follow each other and the
    results are appended.  When the first part raises, that is the
    outcome, and nothing of the second part is tested or compared. *)
Theorem compare_ncfiles_app candidates1 candidates2 reference_files :
  compare_ncfiles w (candidates1 ++ candidates2) reference_files
    nccmp_options exclude_vars =
  match compare_ncfiles w candidates1 reference_files nccmp_options exclude_vars with
  | (log1, Ok l1) =>
      let (log2, r2) :=
        compare_ncfiles w candidates2 reference_files nccmp_options exclude_vars in
      (log1 ++ log2, prepend l1 r2)
  | (log1, Raise e) => (log1, Raise e)
  end.
Proof.
  unfold compare_ncfiles. destruct reference_files as [|first rest]; [reflexivity|].
  rewrite compare_each_app.
  destruct (compare_each w (parent first) candidates1 nccmp_options exclude_vars [])
    as [log1 [l1|e]]; [|reflexivity].
  rewrite (compare_each_carries (parent first) candidates2 l1).
  destruct (compare_each w (parent first) candidates2 nccmp_options exclude_vars [])
    as [log2 r2].
  reflexivity.
Qed.

Lemma compare_each_returned first candidate_files :
  forall output_list log l,
    compare_each w (parent first) candidate_files nccmp_options exclude_vars output_list
    = (log, Ok l) ->
    exists appended,
      l = output_list ++ appended
      /\ Forall2 (fun c v => snd (pair w first nccmp_options exclude_vars c) = Ok v)
                 (filter (matched w first) candidate_files) appended
      /\ file_tests log = map (reference_of first) candidate_files.
Proof.
  induction candidate_files as [|c rest IH]; intros output_list log l H.
  - simpl in H. inversion H; subst. exists []. rewrite app_nil_r.
    repeat split. constructor.
  - rewrite compare_each_cons in H. simpl.
    change (joinpath (parent first) (name c)) with (reference_of first c) in H.
    change (is_file w (reference_of first c)) with (matched w first c) in H.
    destruct (matched w first c) eqn:Hm.
    + pose proof (compare_nc_nccmp_no_file_test (OfPath c) (OfPath (reference_of first c)))
        as Hnone.
      change (compare_nc_nccmp w (OfPath c) (OfPath (reference_of first c))
                nccmp_options exclude_vars)
        with (pair w first nccmp_options exclude_vars c) in H, Hnone.
      destruct (pair w first nccmp_options exclude_vars c) as [log1 [v|e]] eqn:Hpair;
        [|discriminate H].
      destruct (compare_each w (parent first) rest nccmp_options exclude_vars
                  (output_list ++ [v])) as [log2 r] eqn:Hrest.
      inversion H; subst.
      destruct (IH _ _ _ Hrest) as (appended & Hl & Hall & Htests).
      exists (v :: appended). split; [|split].
      * rewrite Hl, <- app_assoc. reflexivity.
      * constructor; [|exact Hall]. rewrite Hpair. reflexivity.
      * simpl. rewrite file_tests_app. simpl in Hnone. rewrite Hnone, Htests.
        reflexivity.
    + destruct (compare_each w (parent first) rest nccmp_options exclude_vars output_list)
        as [log2 r] eqn:Hrest.
      inversion H; subst.
      destruct (IH _ _ _ Hrest) as (appended & Hl & Hall & Htests).
      exists appended. repeat split; try assumption.
      simpl. rewrite Htests. reflexivity.
Qed.

Lemma filter_length_le (A : Type) (f : A -> bool) (l : list A) :
  List.length (filter f l) <= List.length l.
Proof.
  induction l as [|x l IH]; simpl; [lia|]. destruct (f x); simpl; lia.
Qed.

(** X6.  Whenever the set comparator returns, its list holds, in
    candidate order, exactly what the pair comparator returned for each
    candidate whose reference file exists; every candidate was tested
    once, in order, at its place in the reference directory; and the list
    is never longer than the candidate list. *)
Theorem compare_ncfiles_returned candidate_files first rest log output_list :
  compare_ncfiles w candidate_files (first :: rest) nccmp_options exclude_vars
  = (log, Ok output_list) ->
  Forall2 (fun c v => snd (pair w first nccmp_options exclude_vars c) = Ok v)
          (filter (matched w first) candidate_files) output_list
  /\ file_tests log = map (reference_of first) candidate_files
  /\ List.length output_list <= List.length candidate_files.
Proof.
  intros H. unfold compare_ncfiles in H.
  destruct (compare_each_returned first candidate_files [] log output_list H)
    as (appended & Hl & Hall & Htests).
  simpl in Hl. subst appended. repeat split; try assumption.
  rewrite <- (Forall2_length Hall). apply filter_length_le.
Qed.

End World.

Import Scenarios.

Lemma reference_of_candidate_witness :
  name (reference_of (of_str "/ref/b.nc") (of_str "/run/deep/a.nc")) = "a.nc"
  /\ parent (reference_of (of_str "/ref/b.nc") (of_str "/run/deep/a.nc")) = of_str "/ref"
  /\ reference_of (of_str "/ref/b.nc") (of_str "/") = of_str "/ref".
Proof.
  destruct (reference_of_candidate (of_str "/ref/b.nc") (of_str "/run/deep/a.nc"))
    as [Hname _].
  destruct (reference_of_candidate (of_str "/ref/b.nc") (of_str "/")) as [_ Hroot].
  destruct (Hname eq_refl) as [H1 H2].
  split; [exact H1|]. split; [exact H2|]. exact (Hroot eq_refl).
Defined.

Lemma compare_ncfiles_returned_witness :
  Forall2 (fun c v => snd (pair identical (of_str "/ref/b.nc") [] None c) = Ok v)
          (filter (matched identical (of_str "/ref/b.nc")) candidates)
          [RetNone; RetNone]
  /\ file_tests (fst (compare_ncfiles identical candidates references [] None))
     = map (reference_of (of_str "/ref/b.nc")) candidates
  /\ List.length [@RetNone Table; RetNone] <= List.length candidates.
Proof.
  apply (compare_ncfiles_returned Table identical [] None candidates
           (of_str "/ref/b.nc") [of_str "/ref/c.nc"]
           (fst (compare_ncfiles identical candidates references [] None))
           [RetNone; RetNone]).
  reflexivity.
Defined.

End NcfilesMore.

(** ** The grouping done by the dataset opener *)
Module DatasetFacts.
Import NwmDataset NwmGroups.

Section Xarray.
Variables Dataset Key Chunks : Type.
Variable xr : Xarray Dataset Key Chunks.

(** The first loop succeeds exactly on files that all load, and then
    adds their datasets one by one. *)
Lemma group_files_loaded paths :
  forall d d',
    group_files xr paths d = Ok d' ->
    exists entries,
      Forall2 (fun a_file e => load xr a_file = Ok e) paths entries
      /\ d' = group_entries xr entries d.
Proof.
  induction paths as [|a_file rest IH]; intros d d' H; simpl in H.
  - inversion H; subst. exists []. split; [constructor|reflexivity].
  - destruct (open_dataset xr a_file) as [ds|e] eqn:Hopen; [|discriminate H].
    destruct (reference_time0 xr ds) as [ref_time|e] eqn:Htime; [|discriminate H].
    destruct (IH _ _ H) as (entries & Hall & Hd').
    exists ((ref_time, ds) :: entries). split; [|exact Hd'].
    constructor; [|exact Hall]. unfold load. rewrite Hopen, Htime. reflexivity.
Qed.

Lemma group_files_of_loaded paths entries :
  Forall2 (fun a_file e => load xr a_file = Ok e) paths entries ->
  forall d, group_files xr paths d = Ok (group_entries xr entries d).
Proof.
  induction 1 as [|a_file e rest entries Hload _ IH]; intros d; simpl; [reflexivity|].
  unfold load in Hload.
  destruct (open_dataset xr a_file) as [ds|]; [|discriminate Hload].
  destruct (reference_time0 xr ds) as [ref_time|]; [|discriminate Hload].
  inversion Hload; subst e. simpl. apply IH.
Qed.

(** *** Nothing is lost, nothing is empty *)

Lemma add_dataset_permutation d ref_time ds :
  Permutation (flat_map snd (add_dataset xr d ref_time ds)) (flat_map snd d ++ [ds]).
Proof.
  induction d as [|[k members] rest IH]; simpl; [reflexivity|].
  destruct (key_eqb xr k ref_time); simpl.
  - rewrite <- !app_assoc. apply Permutation_app_head. apply Permutation_app_comm.
  - rewrite <- app_assoc. apply Permutation_app_head. exact IH.
Qed.

Lemma add_dataset_nonempty d ref_time ds :
  Forall (fun g => snd g <> []) d ->
  Forall (fun g => snd g <> []) (add_dataset xr d ref_time ds).
Proof.
  induction d as [|[k members] rest IH]; intros H; simpl.
  - constructor; [discriminate|constructor].
  - inversion H as [|? ? Hhead Hrest]; subst.
    destruct (key_eqb xr k ref_time).
    + constructor; [|exact Hrest]. simpl. intros E.
      apply app_eq_nil in E. destruct E as [_ E]. discriminate E.
    + constructor; [exact Hhead|]. apply IH. exact Hrest.
Qed.

Lemma add_dataset_length d ref_time ds :
  List.length (add_dataset xr d ref_time ds) <= S (List.length d).
Proof.
  induction d as [|[k members] rest IH]; simpl; [lia|].
  destruct (key_eqb xr k ref_time); simpl; lia.
Qed.

Lemma group_entries_keeps entries :
  forall d,
    Forall (fun g => snd g <> []) d ->
    Permutation (flat_map snd (group_entries xr entries d))
                (flat_map snd d ++ map snd entries)
    /\ Forall (fun g => snd g <> []) (group_entries xr entries d)
    /\ List.length (group_entries xr entries d) <= List.length d + List.length entries.
Proof.
  unfold group_entries.
  induction entries as [|[k ds] rest IH]; intros d Hd; simpl.
  - rewrite app_nil_r. split; [reflexivity|]. split; [exact Hd|lia].
  - destruct (IH (add_dataset xr d k ds) (add_dataset_nonempty d k ds Hd))
      as (Hperm & Hne & Hlen).
    split; [|split; [exact Hne|]].
    + rewrite Hperm, (add_dataset_permutation d k ds), <- app_assoc. reflexivity.
    + pose proof (add_dataset_length d k ds). lia.
Qed.

(** X8.  Whenever the grouping loop finishes, every file was opened and
    the groups hold exactly the opened datasets, each once; no group is
    empty, so the concatenation along [time] never receives an empty
    list; and there are at most as many groups as files. *)
Theorem group_files_keeps_every_dataset paths d :
  group_files xr paths [] = Ok d ->
  exists datasets,
    Forall2 (fun a_file ds => open_dataset xr a_file = Ok ds) paths datasets
    /\ Permutation (flat_map snd d) datasets
    /\ Forall (fun g => snd g <> []) d
    /\ List.length d <= List.length paths.
Proof.
  intros H. destruct (group_files_loaded _ _ _ H) as (entries & Hload & ->).
  destruct (group_entries_keeps entries [] (Forall_nil _)) as (Hperm & Hne & Hlen).
  exists (map snd entries). repeat split.
  - clear -Hload. induction Hload as [|a_file e rest entries Hl _ IH]; simpl; constructor.
    + unfold load in Hl. destruct (open_dataset xr a_file) as [ds|]; [|discriminate Hl].
      destruct (reference_time0 xr ds); inversion Hl. reflexivity.
    + exact IH.
  - exact Hperm.
  - exact Hne.
  - pose proof (Forall2_length Hload). simpl in Hlen. lia.
Qed.

(** *** The second loop *)

Lemma concat_forecasts_returned d :
  forall forecast_list l,
    concat_forecasts xr d forecast_list = Ok l ->
    exists forecasts,
      l = forecast_list ++ forecasts
      /\ Forall2 (fun g forecast => concat xr "time" (snd g) = Ok forecast) d forecasts.
Proof.
  induction d as [|[k members] rest IH]; intros forecast_list l H; simpl in H.
  - inversion H; subst. exists []. rewrite app_nil_r. split; [reflexivity|constructor].
  - destruct (concat xr "time" members) as [forecast|e] eqn:Hc; [|discriminate H].
    destruct (IH _ _ H) as (forecasts & Hl & Hall).
    exists (forecast :: forecasts). split.
    + rewrite Hl, <- app_assoc. reflexivity.
    + constructor; assumption.
Qed.

(** *** Grouping when equality of reference times is an equivalence *)

Section Equivalence.
Hypothesis key_eqb_refl : forall k, key_eqb xr k k = true.
Hypothesis key_eqb_sym : forall k k', key_eqb xr k k' = key_eqb xr k' k.
Hypothesis key_eqb_trans :
  forall k1 k2 k3, key_eqb xr k1 k2 = true -> key_eqb xr k2 k3 = true ->
                   key_eqb xr k1 k3 = true.

Lemma filter_none (A : Type) (f : A -> bool) (l : list A) :
  (forall x, In x l -> f x = false) -> filter f l = [].
Proof.
  induction l as [|x l IH]; intros H; simpl; [reflexivity|].
  rewrite (H x (or_introl eq_refl)). apply IH. intros y Hy. apply H. right. exact Hy.
Qed.

Lemma members_snoc k entries e :
  members xr k (entries ++ [e])
  = members xr k entries ++ (if key_eqb xr k (fst e) then [snd e] else []).
Proof.
  unfold members. rewrite filter_app, map_app. simpl.
  destruct (key_eqb xr k (fst e)); reflexivity.
Qed.

Lemma pairwise_different_filter (f : Key -> bool) keys :
  pairwise_different xr keys -> pairwise_different xr (filter f keys).
Proof.
  induction keys as [|k rest IH]; simpl; [trivial|].
  intros [Hhead Hrest]. destruct (f k); simpl.
  - split; [|apply IH; exact Hrest].
    apply Forall_forall. intros k' Hin. apply filter_In in Hin.
    rewrite Forall_forall in Hhead. apply Hhead. apply Hin.
  - apply IH. exact Hrest.
Qed.

Lemma first_keys_different entries : pairwise_different xr (first_keys xr entries).
Proof.
  induction entries as [|e rest IH]; simpl; [trivial|]. split.
  - apply Forall_forall. intros k Hin. apply filter_In in Hin.
    destruct Hin as [_ Hk]. apply negb_true_iff in Hk. exact Hk.
  - apply pairwise_different_filter. exact IH.
Qed.

Lemma first_keys_cover entries e :
  In e entries ->
  exists k, In k (first_keys xr entries) /\ key_eqb xr k (fst e) = true.
Proof.
  induction entries as [|x rest IH]; intros Hin; [destruct Hin|].
  simpl. destruct Hin as [->|Hin].
  - exists (fst e). split; [left; reflexivity|apply key_eqb_refl].
  - destruct (IH Hin) as (k & Hk & Heq).
    destruct (key_eqb xr (fst x) k) eqn:Hxk.
    + exists (fst x). split; [left; reflexivity|].
      eapply key_eqb_trans; eassumption.
    + exists k. split; [|exact Heq]. right. apply filter_In. split; [exact Hk|].
      rewrite Hxk. reflexivity.
Qed.

Lemma existsb_filter_different (kx ke : Key) keys :
  key_eqb xr kx ke = false ->
  existsb (fun k => key_eqb xr k ke) (filter (fun k => negb (key_eqb xr kx k)) keys)
  = existsb (fun k => key_eqb xr k ke) keys.
Proof.
  intros Hxe. induction keys as [|k keys IHk]; simpl; [reflexivity|].
  destruct (key_eqb xr kx k) eqn:Hxk; simpl.
  - rewrite IHk. destruct (key_eqb xr k ke) eqn:Hke; [|reflexivity].
    rewrite (key_eqb_trans _ _ _ Hxk Hke) in Hxe. discriminate Hxe.
  - rewrite IHk. reflexivity.
Qed.

Lemma first_keys_snoc entries e :
  first_keys xr (entries ++ [e])
  = first_keys xr entries
    ++ (if existsb (fun k => key_eqb xr k (fst e)) (first_keys xr entries)
        then [] else [fst e]).
Proof.
  induction entries as [|x rest IH]; simpl; [reflexivity|].
  rewrite IH, filter_app. f_equal. f_equal.
  destruct (key_eqb xr (fst x) (fst e)) eqn:Hxe; simpl.
  - destruct (existsb _ (first_keys xr rest)); simpl; [reflexivity|].
    rewrite Hxe. reflexivity.
  - rewrite (existsb_filter_different _ _ _ Hxe).
    destruct (existsb _ (first_keys xr rest)); simpl; [reflexivity|].
    rewrite Hxe. reflexivity.
Qed.

Lemma add_dataset_mapped (m : Key -> list Dataset) keys ref_time ds :
  pairwise_different xr keys ->
  add_dataset xr (map (fun k => (k, m k)) keys) ref_time ds
  = map (fun k => (k, m k ++ (if key_eqb xr k ref_time then [ds] else []))) keys
    ++ (if existsb (fun k => key_eqb xr k ref_time) keys then [] else [(ref_time, [ds])]).
Proof.
  induction keys as [|k rest IH]; simpl; [reflexivity|].
  intros [Hhead Hrest].
  destruct (key_eqb xr k ref_time) eqn:Hk; simpl.
  - rewrite app_nil_r. f_equal. apply map_ext_in. intros k' Hin.
    rewrite Forall_forall in Hhead. specialize (Hhead k' Hin).
    destruct (key_eqb xr k' ref_time) eqn:Hk'; [|rewrite app_nil_r; reflexivity].
    rewrite key_eqb_sym in Hk'.
    rewrite (key_eqb_trans _ _ _ Hk Hk') in Hhead. discriminate Hhead.
  - rewrite app_nil_r, (IH Hrest). reflexivity.
Qed.

Lemma group_by_snoc entries e :
  group_by xr (entries ++ [e]) = add_dataset xr (group_by xr entries) (fst e) (snd e).
Proof.
  unfold group_by.
  rewrite (add_dataset_mapped (fun k => members xr k entries) _ _ _
             (first_keys_different entries)).
  rewrite first_keys_snoc, map_app. f_equal.
  - apply map_ext. intros k. rewrite members_snoc. reflexivity.
  - destruct (existsb (fun k => key_eqb xr k (fst e)) (first_keys xr entries)) eqn:Hex;
      [reflexivity|].
    simpl. rewrite members_snoc, key_eqb_refl. f_equal. f_equal.
    unfold members. rewrite filter_none; [reflexivity|].
    intros x Hin. destruct (key_eqb xr (fst e) (fst x)) eqn:Hex'; [|reflexivity].
    destruct (first_keys_cover _ _ Hin) as (k & Hk & Hkx).
    assert (Hke : key_eqb xr k (fst e) = true).
    { rewrite key_eqb_sym in Hex'. eapply key_eqb_trans; eassumption. }
    assert (Hcontra : existsb (fun k => key_eqb xr k (fst e)) (first_keys xr entries) = true).
    { apply existsb_exists. exists k. split; assumption. }
    congruence.
Qed.

Lemma group_entries_group_by entries : group_entries xr entries [] = group_by xr entries.
Proof.
  unfold group_entries.
  induction entries as [|e entries IH] using rev_ind; [reflexivity|].
  rewrite fold_left_app. simpl. rewrite IH. symmetry. apply group_by_snoc.
Qed.

(** X9.  When equality of reference times is an equivalence and the
    function returns, every file was loaded; the files were grouped by
    reference time, the groups in the order in which their reference time
    first appears among the files and each group in file order; every
    group was concatenated along [time]; the results were concatenated, in
    group order, along [reference_time]; and the outcome was rechunked if
    and only if a chunk specification was passed. *)
Theorem open_nwmdataset_returned paths chunks nwm_dataset :
  open_nwmdataset xr paths chunks = Ok nwm_dataset ->
  exists entries forecasts whole,
    Forall2 (fun a_file e => load xr a_file = Ok e) paths entries
    /\ Forall2 (fun g forecast => concat xr "time" (snd g) = Ok forecast)
               (group_by xr entries) forecasts
    /\ concat xr "reference_time" forecasts = Ok whole
    /\ match chunks with
       | Some chunks => chunk xr chunks whole = Ok nwm_dataset
       | None => nwm_dataset = whole
       end.
Proof.
  intros H. unfold open_nwmdataset in H.
  destruct (group_files xr paths []) as [d|e] eqn:Hgroup; [|discriminate H].
  destruct (concat_forecasts xr d []) as [forecast_list|e] eqn:Hfc; [|discriminate H].
  destruct (concat xr "reference_time" forecast_list) as [whole|e] eqn:Hrt;
    [|discriminate H].
  destruct (group_files_loaded _ _ _ Hgroup) as (entries & Hload & ->).
  rewrite group_entries_group_by in Hfc.
  destruct (concat_forecasts_returned _ _ _ Hfc) as (forecasts & Hl & Hall).
  simpl in Hl. subst forecast_list.
  exists entries, forecasts, whole. repeat split; try assumption.
  destruct chunks; [exact H|]. inversion H. reflexivity.
Qed.

End Equivalence.

(** *** One forecast only *)

Lemma group_files_one_forecast (T : Key) paths datasets :
  key_eqb xr T T = true ->
  Forall2 (fun a_file ds => open_dataset xr a_file = Ok ds
                            /\ reference_time0 xr ds = Ok T) paths datasets ->
  forall members,
    group_files xr paths [(T, members)] = Ok [(T, members ++ datasets)].
Proof.
  intros HT Hall. induction Hall as [|a_file ds rest datasets [Hopen Htime] _ IH];
    intros members; simpl.
  - rewrite app_nil_r. reflexivity.
  - rewrite Hopen, Htime, HT, IH, <- app_assoc. reflexivity.
Qed.

(** X10.  When all files (at least one) carry the same reference time,
    their datasets are concatenated along [time] in one go, in the order
    in which the files were given, and the result is concatenated along
    [reference_time] on its own. *)
Theorem open_nwmdataset_one_forecast (T : Key) paths datasets chunks :
  key_eqb xr T T = true ->
  paths <> [] ->
  Forall2 (fun a_file ds => open_dataset xr a_file = Ok ds
                            /\ reference_time0 xr ds = Ok T) paths datasets ->
  open_nwmdataset xr paths chunks =
  match concat xr "time" datasets with
  | Raise e => Raise e
  | Ok forecast =>
      match concat xr "reference_time" [forecast] with
      | Raise e => Raise e
      | Ok nwm_dataset =>
          match chunks with
          | Some chunks => chunk xr chunks nwm_dataset
          | None => Ok nwm_dataset
          end
      end
  end.
Proof.
  intros HT Hne Hall. unfold open_nwmdataset.
  destruct Hall as [|a_file ds rest datasets [Hopen Htime] Hrest]; [congruence|].
  simpl. rewrite Hopen, Htime. simpl.
  rewrite (group_files_one_forecast T rest datasets HT Hrest [ds]). simpl.
  destruct (concat xr "time" (ds :: datasets)); reflexivity.
Qed.

(** *** Every file a forecast of its own *)

Lemma add_dataset_absent d ref_time ds :
  existsb (fun g => key_eqb xr (fst g) ref_time) d = false ->
  add_dataset xr d ref_time ds = d ++ [(ref_time, [ds])].
Proof.
  induction d as [|[k members] rest IH]; simpl; [reflexivity|].
  intros H. apply orb_false_iff in H. destruct H as [Hk Hrest].
  rewrite Hk, (IH Hrest). reflexivity.
Qed.

Lemma group_entries_all_different entries :
  forall d,
    pairwise_different xr (map fst d ++ map fst entries) ->
    group_entries xr entries d = d ++ map (fun e => (fst e, [snd e])) entries.
Proof.
  unfold group_entries.
  induction entries as [|[k ds] rest IH]; intros d Hdiff; simpl.
  - rewrite app_nil_r. reflexivity.
  - assert (Habsent : existsb (fun g => key_eqb xr (fst g) k) d = false).
    { clear IH. induction d as [|[k' m] d IHd]; simpl in *; [reflexivity|].
      destruct Hdiff as [Hhead Hrest].
      rewrite Forall_forall in Hhead.
      rewrite (Hhead k) by (apply in_or_app; right; left; reflexivity).
      apply IHd. exact Hrest. }
    rewrite (add_dataset_absent d k ds Habsent), IH.
    + rewrite <- app_assoc. reflexivity.
    + rewrite map_app, <- app_assoc. exact Hdiff.
Qed.

(** X21.  When no reference time read from a file equals one read from
    an earlier file, the function returns only if every file could be
    concatenated along [time] on its own, and the results are then
    concatenated along [reference_time] in the order in which the files
    were given; nothing sorts them. *)
Theorem open_nwmdataset_all_different paths entries chunks nwm_dataset :
  Forall2 (fun a_file e => load xr a_file = Ok e) paths entries ->
  pairwise_different xr (map fst entries) ->
  open_nwmdataset xr paths chunks = Ok nwm_dataset ->
  exists forecasts whole,
    Forall2 (fun e forecast => concat xr "time" [snd e] = Ok forecast) entries forecasts
    /\ concat xr "reference_time" forecasts = Ok whole
    /\ match chunks with
       | Some chunks => chunk xr chunks whole = Ok nwm_dataset
       | None => nwm_dataset = whole
       end.
Proof.
  intros Hload Hdiff H. unfold open_nwmdataset in H.
  rewrite (group_files_of_loaded paths entries Hload []) in H.
  rewrite (group_entries_all_different entries [] Hdiff) in H. simpl in H.
  destruct (concat_forecasts xr (map (fun e => (fst e, [snd e])) entries) [])
    as [forecast_list|e] eqn:Hfc; [|discriminate H].
  destruct (concat xr "reference_time" forecast_list) as [whole|e] eqn:Hrt;
    [|discriminate H].
  destruct (concat_forecasts_returned _ _ _ Hfc) as (forecasts & Hl & Hall).
  simpl in Hl. subst forecast_list.
  exists forecasts, whole. repeat split; try assumption.
  - clear -Hall. revert forecasts Hall.
    induction entries as [|e rest IH]; intros forecasts Hall; inversion Hall; subst;
      constructor; [assumption|apply IH; assumption].
  - destruct chunks; [exact H|]. inversion H. reflexivity.
Qed.

(** *** The first file that fails *)

Lemma group_files_first_failure before a_file after entries e :
  Forall2 (fun p en => load xr p = Ok en) before entries ->
  load xr a_file = Raise e ->
  forall d, group_files xr (before ++ a_file :: after) d = Raise e.
Proof.
  intros Hbefore Hfail.
  induction Hbefore as [|p en rest entries Hload _ IH]; intros d; simpl.
  - unfold load in Hfail.
    destruct (open_dataset xr a_file) as [ds|e']; [|inversion Hfail; reflexivity].
    destruct (reference_time0 xr ds) as [k|e']; inversion Hfail; reflexivity.
  - unfold load in Hload.
    destruct (open_dataset xr p) as [ds|]; [|discriminate Hload].
    destruct (reference_time0 xr ds) as [k|]; [|discriminate Hload].
    apply IH.
Qed.

(** X11.  The first file, in the order given, that cannot be opened or
    whose reference time cannot be read decides the outcome: its
    exception is raised, whatever the files after it are, and nothing is
    concatenated. *)
Theorem open_nwmdataset_first_failure before a_file after entries e chunks :
  Forall2 (fun p en => load xr p = Ok en) before entries ->
  load xr a_file = Raise e ->
  open_nwmdataset xr (before ++ a_file :: after) chunks = Raise e.
Proof.
  intros Hbefore Hfail. unfold open_nwmdataset.
  rewrite (group_files_first_failure before a_file after entries e Hbefore Hfail []).
  reflexivity.
Qed.

End Xarray.

Import MoreScenarios.

Lemma nat_eqb_trans (a b c : nat) :
  Nat.eqb a b = true -> Nat.eqb b c = true -> Nat.eqb a c = true.
Proof. rewrite !Nat.eqb_eq. congruence. Qed.

Lemma group_files_keeps_every_dataset_witness :
  exists datasets,
    Forall2 (fun a_file ds => open_dataset toy_xarray a_file = Ok ds)
            ["f1.nc"; "f2.nc"; "f3.nc"] datasets
    /\ Permutation (flat_map snd [(1, [(1, [10; 11]); (1, [12])]); (2, [(2, [20])])])
                   datasets
    /\ Forall (fun g => snd g <> [])
              [(1, [(1, [10; 11]); (1, [12])]); (2, [(2, [20])])]
    /\ List.length [(1, [(1, [10; 11]); (1, [12])]); (2, [(2, [20])])]
       <= List.length ["f1.nc"; "f2.nc"; "f3.nc"].
Proof.
  apply (group_files_keeps_every_dataset _ _ _ toy_xarray ["f1.nc"; "f2.nc"; "f3.nc"]).
  reflexivity.
Defined.

Lemma open_nwmdataset_returned_witness :
  exists entries forecasts whole,
    Forall2 (fun a_file e => load toy_xarray a_file = Ok e)
            ["f1.nc"; "f2.nc"; "f3.nc"] entries
    /\ Forall2 (fun g forecast => concat toy_xarray "time" (snd g) = Ok forecast)
               (group_by toy_xarray entries) forecasts
    /\ concat toy_xarray "reference_time" forecasts = Ok whole
    /\ (1, [10; 11; 12; 20]) = whole.
Proof.
  apply (open_nwmdataset_returned _ _ _ toy_xarray
           Nat.eqb_refl Nat.eqb_sym nat_eqb_trans
           ["f1.nc"; "f2.nc"; "f3.nc"] None (1, [10; 11; 12; 20])).
  reflexivity.
Defined.

Lemma open_nwmdataset_one_forecast_witness :
  open_nwmdataset toy_xarray ["f1.nc"; "f3.nc"] (Some tt) = Ok (1, [10; 11; 12]).
Proof.
  rewrite (open_nwmdataset_one_forecast _ _ _ toy_xarray 1 ["f1.nc"; "f3.nc"]
             [(1, [10; 11]); (1, [12])] (Some tt)).
  - reflexivity.
  - reflexivity.
  - discriminate.
  - repeat constructor.
Defined.

Lemma open_nwmdataset_all_different_witness :
  exists forecasts whole,
    Forall2 (fun e forecast => concat toy_xarray "time" [snd e] = Ok forecast)
            [(2, (2, [20])); (1, (1, [10; 11]))] forecasts
    /\ concat toy_xarray "reference_time" forecasts = Ok whole
    /\ (2, [20; 10; 11]) = whole.
Proof.
  apply (open_nwmdataset_all_different _ _ _ toy_xarray ["f2.nc"; "f1.nc"]
           [(2, (2, [20])); (1, (1, [10; 11]))] None (2, [20; 10; 11])).
  - repeat constructor.
  - simpl. repeat constructor.
  - reflexivity.
Defined.

Lemma open_nwmdataset_first_failure_witness :
  open_nwmdataset toy_xarray (["f1.nc"; "f2.nc"] ++ "missing.nc" :: ["f3.nc"]) None
  = Raise OSError.
Proof.
  apply (open_nwmdataset_first_failure _ _ _ toy_xarray ["f1.nc"; "f2.nc"] "missing.nc"
           ["f3.nc"] [(1, (1, [10; 11])); (2, (2, [20]))] OSError None).
  - repeat constructor.
  - reflexivity.
Defined.

End DatasetFacts.

(** ** More on the path relativizer *)
Module RelativeMore.
Import Relative RelativeShape RelativeFacts.

(** *** Time series *)

Lemma relativize_attr_ts basepath attr items o o' r :
  getattr o attr = Some (VTs items) ->
  relativize_attr basepath attr o = (o', r) ->
  exists k collected,
    relative_forms basepath (firstn k items) collected
    /\ (collected = [] -> o' = o)
    /\ (collected <> [] -> getattr o' attr = Some (VTs collected))
    /\ (r = Ok tt -> firstn k items = items).
Proof.
  intros Hget H. unfold relativize_attr in H. run_st. rewrite Hget in H. simpl in H.
  destruct (collect_spec _ _ _ _ _ _ _ _ H) as (k & collected & Hforms & Hnil & Hcons & Hall).
  exists k, collected. repeat split; assumption.
Qed.

Lemma visit_ts rec basepath attr items o o' r :
  getattr o attr = Some (VTs items) ->
  visit rec basepath attr o = (o', r) ->
  exists k collected,
    relative_forms basepath (firstn k items) collected
    /\ (collected = [] -> getattr o' attr = Some (VTs items))
    /\ (collected <> [] -> getattr o' attr = Some (VTs collected))
    /\ (r = Ok tt -> startswith attr "__" = false -> firstn k items = items).
Proof.
  intros Hget H. unfold visit, bind in H.
  destruct (startswith attr "__") eqn:Hdunder; simpl in H.
  - unfold ret in H at 1.
    destruct (attr =? "simulation")%string eqn:Hsim.
    + apply String.eqb_eq in Hsim. subst attr. discriminate Hdunder.
    + inversion H; subst. exists 0, []. simpl.
      repeat split; try constructor; congruence.
  - destruct (relativize_attr basepath attr o) as [o1 r1] eqn:Hattr.
    destruct (relativize_attr_ts _ _ _ _ _ _ Hget Hattr)
      as (k & collected & Hforms & Hnil & Hcons & Hall).
    assert (Hkeep : collected = [] -> getattr o1 attr = Some (VTs items))
      by (intros E; rewrite (Hnil E); exact Hget).
    exists k, collected.
    destruct r1 as [[]|e].
    + destruct (attr =? "simulation")%string eqn:Hsim.
      * apply String.eqb_eq in Hsim. subst attr.
        assert (Hts : exists l, getattr o1 "simulation" = Some (VTs l)).
        { destruct collected; [exists items; apply Hkeep; reflexivity|].
          eexists. apply Hcons. discriminate. }
        destruct Hts as [l Hl].
        rewrite (descend_not_object rec o1 _ Hl) in H by discriminate.
        inversion H; subst. repeat split; try assumption. discriminate.
      * inversion H; subst. repeat split; try assumption.
        intros _ _. apply Hall. reflexivity.
    + inversion H; subst. repeat split; try assumption. discriminate.
Qed.

Lemma for_each_ts rec basepath attr items :
  forall names o o' r,
    NoDup names ->
    getattr o attr = Some (VTs items) ->
    for_each (visit rec basepath) names o = (o', r) ->
    exists k collected,
      relative_forms basepath (firstn k items) collected
      /\ (collected = [] -> getattr o' attr = Some (VTs items))
      /\ (collected <> [] -> getattr o' attr = Some (VTs collected))
      /\ (r = Ok tt -> In attr names -> startswith attr "__" = false ->
          firstn k items = items).
Proof.
  induction names as [|a rest IH]; intros o o' r Hnd Hget H; simpl in H.
  - inversion H; subst. exists 0, []. simpl.
    repeat split; try constructor; try congruence. intros _ [].
  - inversion Hnd as [|? ? Ha Hrest]; subst. unfold bind in H.
    destruct (visit rec basepath a o) as [o1 r1] eqn:Hv.
    destruct (String.eqb_spec a attr) as [E|Hne].
    + subst a.
      destruct (visit_ts _ _ _ _ _ _ _ Hget Hv)
        as (k & collected & Hforms & Hnil & Hcons & Hall).
      exists k, collected.
      destruct r1 as [[]|e].
      * pose proof (for_each_other _ _ _ _ _ _ _ Ha H) as Hsame.
        rewrite Hsame. repeat split; try assumption.
        intros _ _ Hd. apply Hall; [reflexivity|exact Hd].
      * inversion H; subst. repeat split; try assumption. discriminate.
    + assert (Hget1 : getattr o1 attr = Some (VTs items)).
      { rewrite (visit_other _ _ _ _ _ _ _ (fun E => Hne (eq_sym E)) Hv). exact Hget. }
      destruct r1 as [[]|e].
      * destruct (IH _ _ _ Hrest Hget1 H)
          as (k & collected & Hforms & Hnil & Hcons & Hall).
        exists k, collected. repeat split; try assumption.
        intros Hr [E|Hin] Hd; [contradiction|]. apply Hall; assumption.
      * inversion H; subst. exists 0, []. simpl.
        repeat split; try constructor; congruence.
Qed.

(** X12.  For an attribute that holds a time series: without a path or
    static-file item in it, the attribute is left as it was; when it is
    overwritten, then with a time series again, non-empty, that holds in
    order the relative forms of the path and static-file items walked so
    far; and when the call returns and the name does not start with [__],
    all items were walked. *)
Theorem make_relative_time_series depth run_object basepath attr items run_object' r :
  getattr run_object attr = Some (VTs items) ->
  __make_relative__ depth run_object basepath = (run_object', r) ->
  (filter is_path_item items = [] -> getattr run_object' attr = Some (VTs items))
  /\ exists k relative_list,
       (forall base, effective_base run_object basepath = Some base ->
                     relative_forms base (firstn k items) relative_list)
       /\ (relative_list = [] -> getattr run_object' attr = Some (VTs items))
       /\ (relative_list <> [] -> getattr run_object' attr = Some (VTs relative_list))
       /\ (r = Ok tt -> startswith attr "__" = false -> firstn k items = items).
Proof.
  intros Hget H.
  assert (Hstay : run_object' = run_object -> r <> Ok tt ->
          (filter is_path_item items = [] -> getattr run_object' attr = Some (VTs items))
          /\ exists k relative_list,
               (forall base, effective_base run_object basepath = Some base ->
                             relative_forms base (firstn k items) relative_list)
               /\ (relative_list = [] -> getattr run_object' attr = Some (VTs items))
               /\ (relative_list <> [] ->
                   getattr run_object' attr = Some (VTs relative_list))
               /\ (r = Ok tt -> startswith attr "__" = false -> firstn k items = items)).
  { intros -> Hr. split; [intros _; exact Hget|].
    exists 0, []. simpl. repeat split; try congruence.
    intros base _. constructor. }
  destruct depth as [|depth].
  { simpl in H. inversion H; subst. apply Hstay; [reflexivity|discriminate]. }
  destruct (effective_base run_object basepath) as [base|] eqn:Hbase.
  - rewrite (make_relative_step depth _ _ _ Hbase) in H.
    destruct (for_each_ts _ _ _ _ _ _ _ _ (dir_NoDup run_object) Hget H)
      as (k & collected & Hforms & Hnil & Hcons & Hwhole).
    split.
    + intros Hnone. apply Hnil.
      unfold relative_forms in Hforms.
      rewrite (filter_firstn_nil _ _ _ Hnone k) in Hforms.
      inversion Hforms. reflexivity.
    + exists k, collected. repeat split; try assumption.
      * intros base' E. inversion E; subst. exact Hforms.
      * intros Hr Hd. apply Hwhole; [exact Hr| |exact Hd].
        eapply dir_In. exact Hget.
  - rewrite (make_relative_no_base depth _ _ Hbase) in H.
    inversion H; subst. apply Hstay; [reflexivity|discriminate].
Qed.

(** *** What is never touched *)

Lemma visit_dunder rec basepath attr o :
  startswith attr "__" = true -> visit rec basepath attr o = (o, Ok tt).
Proof.
  intros Hdunder. unfold visit, bind. rewrite Hdunder. simpl. unfold ret at 1.
  destruct (attr =? "simulation")%string eqn:Hsim; [|reflexivity].
  apply String.eqb_eq in Hsim. subst attr. discriminate Hdunder.
Qed.

Lemma relativize_attr_untyped basepath attr v o :
  getattr o attr = Some v ->
  (forall p, v <> VPath p) -> (forall l, v <> VList l) -> (forall l, v <> VTs l) ->
  relativize_attr basepath attr o = (o, Ok tt).
Proof.
  intros Hget Hp Hl Ht. unfold relativize_attr. run_st. rewrite Hget.
  destruct v; try reflexivity; exfalso; [eapply Hp|eapply Hl|eapply Ht]; reflexivity.
Qed.

Lemma visit_keeps_value rec basepath attr v o o' r :
  getattr o attr = Some v ->
  inert v = true \/ (exists attrs, v = VObj attrs) /\ attr <> "simulation" ->
  visit rec basepath attr o = (o', r) ->
  o' = o.
Proof.
  intros Hget Hv H. unfold visit, bind in H.
  assert (Hsame : relativize_attr basepath attr o = (o, Ok tt)).
  { apply (relativize_attr_untyped basepath attr v o Hget);
      intros x E; subst v;
      destruct Hv as [Hv|[[attrs Hv] _]]; discriminate Hv. }
  destruct (startswith attr "__"); simpl in H.
  - unfold ret in H at 1.
    destruct (attr =? "simulation")%string eqn:Hsim.
    + apply String.eqb_eq in Hsim. subst attr.
      destruct Hv as [Hv|[_ Hne]]; [|congruence].
      rewrite (descend_not_object rec o v Hget) in H
        by (intros attrs E; subst v; discriminate Hv).
      inversion H. reflexivity.
    + inversion H. reflexivity.
  - rewrite Hsame in H.
    destruct (attr =? "simulation")%string eqn:Hsim.
    + apply String.eqb_eq in Hsim. subst attr.
      destruct Hv as [Hv|[_ Hne]]; [|congruence].
      rewrite (descend_not_object rec o v Hget) in H
        by (intros attrs E; subst v; discriminate Hv).
      inversion H. reflexivity.
    + inversion H. reflexivity.
Qed.

Lemma for_each_keeps rec basepath attr (P : str -> obj -> Prop) :
  (forall o o' r, P attr o -> visit rec basepath attr o = (o', r) ->
                  getattr o' attr = getattr o attr) ->
  (forall a o o' r, P attr o -> visit rec basepath a o = (o', r) ->
                    getattr o' attr = getattr o attr -> P attr o') ->
  forall names o o' r,
    P attr o ->
    for_each (visit rec basepath) names o = (o', r) ->
    getattr o' attr = getattr o attr.
Proof.
  intros Hat Hpres. induction names as [|a rest IH]; intros o o' r HP H; simpl in H.
  - inversion H. reflexivity.
  - unfold bind in H.
    destruct (visit rec basepath a o) as [o1 r1] eqn:Hv.
    assert (H1 : getattr o1 attr = getattr o attr).
    { destruct (String.eqb_spec a attr) as [E|Hne].
      - subst a. eapply Hat; eassumption.
      - eapply visit_other; [|exact Hv]. intros E. apply Hne. symmetry. exact E. }
    destruct r1 as [[]|e].
    + rewrite <- H1. eapply IH; [|exact H]. eapply Hpres; eassumption.
    + inversion H; subst. exact H1.
Qed.

(** X13.  An attribute whose name starts with [__] keeps its value,
    whatever it holds and however the call ends. *)
Theorem make_relative_dunder_untouched depth run_object basepath attr run_object' r :
  startswith attr "__" = true ->
  __make_relative__ depth run_object basepath = (run_object', r) ->
  getattr run_object' attr = getattr run_object attr.
Proof.
  intros Hdunder H. destruct depth as [|depth]; [inversion H; reflexivity|].
  destruct (effective_base run_object basepath) as [base|] eqn:Hbase.
  - rewrite (make_relative_step depth _ _ _ Hbase) in H.
    apply (for_each_keeps (__make_relative__ depth) base attr (fun _ _ => True))
      with (names := dir run_object) (r := r); try assumption; try trivial.
    intros o o' r' _ Hv. rewrite (visit_dunder _ _ _ o Hdunder) in Hv.
    inversion Hv. reflexivity.
  - rewrite (make_relative_no_base depth _ _ Hbase) in H. inversion H. reflexivity.
Qed.

(** X14.  An attribute that holds [None], a string, a single static
    file or a value of any type the function does not know keeps its
    value, however the call ends; so does an attribute that holds an
    object, unless it is the one named [simulation].  In particular a
    static file held on its own, outside a list, is not made relative. *)
Theorem make_relative_leaves_other_values depth run_object basepath attr v run_object' r :
  getattr run_object attr = Some v ->
  inert v = true \/ (exists attrs, v = VObj attrs) /\ attr <> "simulation" ->
  __make_relative__ depth run_object basepath = (run_object', r) ->
  getattr run_object' attr = Some v.
Proof.
  intros Hget Hv H. rewrite <- Hget.
  destruct depth as [|depth]; [inversion H; reflexivity|].
  destruct (effective_base run_object basepath) as [base|] eqn:Hbase.
  - rewrite (make_relative_step depth _ _ _ Hbase) in H.
    apply (for_each_keeps (__make_relative__ depth) base attr
             (fun a o => getattr o a = Some v))
      with (names := dir run_object) (r := r); try assumption.
    + intros o o' r' Ho Hvisit.
      rewrite (visit_keeps_value _ _ _ _ _ _ _ Ho Hv Hvisit). reflexivity.
    + intros a o o' r' Ho _ Hsame. rewrite Hsame. exact Ho.
  - rewrite (make_relative_no_base depth _ _ Hbase) in H. inversion H. reflexivity.
Qed.

(** X20.  However the call ends, an attribute that held a single path
    holds afterwards either that same path or its form relative to the
    base; no other value is ever stored in its place. *)
Theorem make_relative_path_old_or_relative
    depth run_object basepath attr p run_object' r :
  getattr run_object attr = Some (VPath p) ->
  __make_relative__ depth run_object basepath = (run_object', r) ->
  getattr run_object' attr = Some (VPath p)
  \/ exists base rp,
       effective_base run_object basepath = Some base
       /\ relative_path p base = Ok rp
       /\ getattr run_object' attr = Some (VPath rp).
Proof.
  intros Hget H. destruct depth as [|depth]; [inversion H; subst; left; exact Hget|].
  destruct (effective_base run_object basepath) as [base|] eqn:Hbase.
  - rewrite (make_relative_step depth _ _ _ Hbase) in H.
    destruct (for_each_path _ _ _ _ _ _ _ _ (dir_NoDup run_object) Hget H)
      as [[Hold|(rp & Hrp & Hnew)] _].
    + left. exact Hold.
    + right. exists base, rp. repeat split; assumption.
  - rewrite (make_relative_no_base depth _ _ Hbase) in H.
    inversion H; subst. left. exact Hget.
Qed.

(** *** The attribute names *)


Lemma setattr_keys o attr x v :
  getattr o attr = Some x -> map fst (setattr o attr v) = map fst o.
Proof.
  induction o as [|[k y] o IH]; simpl; [discriminate|].
  destruct (k =? attr)%string; simpl; [reflexivity|].
  intros H. rewrite (IH H). reflexivity.
Qed.


Lemma dir_keys o1 : forall o2, map fst o1 = map fst o2 -> dir o1 = dir o2.
Proof.
  induction o1 as [|[k x] o1 IH]; intros [|[k' y] o2] Hk; simpl in *;
    try discriminate; [reflexivity|].
  inversion Hk; subst k'. rewrite (IH o2) by assumption. reflexivity.
Qed.


Lemma collect_keys wrap basepath attr :
  forall items relative_list o o' r,
    getattr o attr <> None ->
    collect wrap basepath attr items relative_list o = (o', r) ->
    map fst o' = map fst o.
Proof.
  induction items as [|item rest IH]; intros relative_list o o' r Hin H; simpl in H.
  - run_st. inversion H. reflexivity.
  - destruct (is_path_item item).
    + run_st. destruct (item_relative_to item basepath) as [rv|e].
      * destruct (getattr o attr) as [x|] eqn:Hget; [|congruence].
        rewrite (IH _ _ _ _ ltac:(rewrite getattr_setattr_same; discriminate) H).
        eapply setattr_keys. exact Hget.
      * inversion H. reflexivity.
    + eapply IH; eassumption.
Qed.

Lemma relativize_attr_keys basepath attr o o' r :
  relativize_attr basepath attr o = (o', r) -> map fst o' = map fst o.
Proof.
  intros H. unfold relativize_attr in H. run_st.
  destruct (getattr o attr) as [v|] eqn:Hget; [|inversion H; reflexivity].
  assert (Hin : getattr o attr <> None) by congruence.
  destruct v; simpl in H; try (inversion H; reflexivity).
  - destruct (relative_path p basepath); inversion H; subst; [|reflexivity].
    eapply setattr_keys. exact Hget.
  - destruct (collect VList basepath attr items [] o) as [o1 [[]|e]] eqn:Hc;
      inversion H; subst; eapply collect_keys; eassumption.
  - eapply collect_keys; eassumption.
Qed.

Lemma descend_keys rec o o' r : descend rec o = (o', r) -> map fst o' = map fst o.
Proof.
  intros H. unfold descend in H. run_st.
  destruct (getattr o "simulation") as [v|] eqn:Hget; [|inversion H; reflexivity].
  destruct v as [| | | | | | |sim]; try (inversion H; reflexivity).
  destruct (getattr sim "domain") as [d|]; [|inversion H; reflexivity].
  destruct d as [| | | | | | |domain]; try (inversion H; reflexivity).
  destruct (getattr domain "domain_top_dir") as [top|]; [|inversion H; reflexivity].
  destruct (rec domain top) as [domain' r']. inversion H; subst.
  eapply setattr_keys. exact Hget.
Qed.

Lemma visit_keys rec basepath attr o o' r :
  visit rec basepath attr o = (o', r) -> map fst o' = map fst o.
Proof.
  intros H. unfold visit, bind in H.
  destruct (startswith attr "__"); simpl in H.
  - unfold ret in H at 1.
    destruct (attr =? "simulation")%string;
      [eapply descend_keys; exact H|inversion H; reflexivity].
  - destruct (relativize_attr basepath attr o) as [o1 [[]|e]] eqn:Hattr.
    + rewrite <- (relativize_attr_keys _ _ _ _ _ Hattr).
      destruct (attr =? "simulation")%string;
        [eapply descend_keys; exact H|inversion H; reflexivity].
    + inversion H; subst. eapply relativize_attr_keys. exact Hattr.
Qed.

Lemma for_each_keys rec basepath :
  forall names o o' r,
    for_each (visit rec basepath) names o = (o', r) -> map fst o' = map fst o.
Proof.
  induction names as [|a rest IH]; intros o o' r H; simpl in H.
  - inversion H. reflexivity.
  - unfold bind in H. destruct (visit rec basepath a o) as [o1 [[]|e]] eqn:Hv.
    + rewrite (IH _ _ _ H). eapply visit_keys. exact Hv.
    + inversion H; subst. eapply visit_keys. exact Hv.
Qed.

(** X15.  The call never adds, removes or reorders an attribute of the
    run object, however it ends; [dir] of the object is what it was. *)
Theorem make_relative_keeps_attribute_names depth run_object basepath :
  map fst (fst (__make_relative__ depth run_object basepath)) = map fst run_object
  /\ dir (fst (__make_relative__ depth run_object basepath)) = dir run_object.
Proof.
  assert (Hkeys : map fst (fst (__make_relative__ depth run_object basepath))
                  = map fst run_object).
  { destruct depth as [|depth]; [reflexivity|].
    destruct (effective_base run_object basepath) as [base|] eqn:Hbase.
    - rewrite (make_relative_step depth _ _ _ Hbase).
      destruct (for_each (visit (__make_relative__ depth) base) (dir run_object) run_object)
        as [o' r] eqn:H.
      simpl. eapply for_each_keys. exact H.
    - rewrite (make_relative_no_base depth _ _ Hbase). reflexivity. }
  split; [exact Hkeys|]. apply dir_keys. exact Hkeys.
Qed.

(** *** The default base *)

Lemma strip_prefix_same (l : list str) : strip_prefix l l = Some [].
Proof.
  induction l as [|x l IH]; simpl; [reflexivity|].
  rewrite String.eqb_refl. exact IH.
Qed.

Lemma relative_to_self (p : PosixPath) : relative_to p p = Some (mkPath "" []).
Proof.
  unfold relative_to. rewrite String.eqb_refl, strip_prefix_same. reflexivity.
Qed.

(** X16.  After a call without a base that returned, a [simulation_dir]
    that was a path is the empty relative path, the one printed as a dot:
    the default base is made relative to itself. *)
Theorem make_relative_default_base_becomes_dot depth run_object p run_object' :
  getattr run_object "simulation_dir" = Some (VPath p) ->
  __make_relative__ depth run_object VNone = (run_object', Ok tt) ->
  getattr run_object' "simulation_dir" = Some (VPath (mkPath "" []))
  /\ to_str (mkPath "" []) = ".".
Proof.
  intros Hget H. split; [|reflexivity].
  destruct (make_relative_single_path depth run_object VNone (VPath p) run_object'
              "simulation_dir" p H Hget eq_refl Hget) as (rp & Hrp & Hget').
  unfold relative_path in Hrp. simpl in Hrp. rewrite relative_to_self in Hrp.
  inversion Hrp; subst rp. exact Hget'.
Qed.

(** *** The descent into the domain *)

Lemma descend_returns rec o sim o' :
  getattr o "simulation" = Some (VObj sim) ->
  descend rec o = (o', Ok tt) ->
  exists domain top domain',
    getattr sim "domain" = Some (VObj domain)
    /\ getattr domain "domain_top_dir" = Some top
    /\ rec domain top = (domain', Ok tt)
    /\ o' = setattr o "simulation" (VObj (setattr sim "domain" (VObj domain'))).
Proof.
  intros Hget H. unfold descend in H. run_st. rewrite Hget in H.
  destruct (getattr sim "domain") as [d|] eqn:Hd; [|discriminate H].
  destruct d as [| | | | | | |domain]; try discriminate H.
  destruct (getattr domain "domain_top_dir") as [top|] eqn:Ht; [|discriminate H].
  destruct (rec domain top) as [domain' r'] eqn:Hrec. inversion H; subst.
  exists domain, top, domain'. repeat split; assumption.
Qed.

Lemma visit_simulation rec basepath o sim o' :
  getattr o "simulation" = Some (VObj sim) ->
  visit rec basepath "simulation" o = (o', Ok tt) ->
  exists domain top domain',
    getattr sim "domain" = Some (VObj domain)
    /\ getattr domain "domain_top_dir" = Some top
    /\ rec domain top = (domain', Ok tt)
    /\ getattr o' "simulation" = Some (VObj (setattr sim "domain" (VObj domain'))).
Proof.
  intros Hget H. unfold visit, bind in H. simpl in H.
  rewrite (relativize_attr_untyped basepath "simulation" (VObj sim) o Hget) in H
    by (intros x E; discriminate E).
  destruct (descend_returns rec o sim o' Hget H) as (domain & top & domain' & Hd & Ht & Hr & ->).
  exists domain, top, domain'. repeat split; try assumption.
  apply getattr_setattr_same.
Qed.

Lemma for_each_simulation rec basepath sim :
  forall names o o',
    NoDup names -> In "simulation" names ->
    getattr o "simulation" = Some (VObj sim) ->
    for_each (visit rec basepath) names o = (o', Ok tt) ->
    exists domain top domain',
      getattr sim "domain" = Some (VObj domain)
      /\ getattr domain "domain_top_dir" = Some top
      /\ rec domain top = (domain', Ok tt)
      /\ getattr o' "simulation" = Some (VObj (setattr sim "domain" (VObj domain'))).
Proof.
  induction names as [|a rest IH]; intros o o' Hnd Hin Hget H; [destruct Hin|].
  simpl in H. unfold bind in H. inversion Hnd as [|? ? Ha Hrest]; subst.
  destruct (visit rec basepath a o) as [o1 [[]|e]] eqn:Hv; [|discriminate H].
  destruct (String.eqb_spec a "simulation") as [E|Hne].
  - subst a.
    destruct (visit_simulation rec basepath o sim o1 Hget Hv)
      as (domain & top & domain' & Hd & Ht & Hr & Hget1).
    exists domain, top, domain'. repeat split; try assumption.
    rewrite (for_each_other _ _ _ _ _ _ _ Ha H). exact Hget1.
  - destruct Hin as [E|Hin]; [congruence|].
    apply (IH o1 o' Hrest Hin); [|exact H].
    rewrite (visit_other _ _ _ _ _ _ _ (fun E => Hne (eq_sym E)) Hv). exact Hget.
Qed.

(** X17.  When the call returns on a run object whose [simulation] is
    an object, that simulation holds a domain, the domain has a
    [domain_top_dir], the nested call on the domain with that directory
    as base returned, and afterwards the simulation holds the domain as
    the nested call left it.  The other attributes of the simulation are
    as they were: the simulation itself is not walked. *)
Theorem make_relative_descends depth run_object basepath sim run_object' :
  getattr run_object "simulation" = Some (VObj sim) ->
  __make_relative__ depth run_object basepath = (run_object', Ok tt) ->
  exists depth' domain top domain' sim',
    depth = S depth'
    /\ getattr sim "domain" = Some (VObj domain)
    /\ getattr domain "domain_top_dir" = Some top
    /\ __make_relative__ depth' domain top = (domain', Ok tt)
    /\ getattr run_object' "simulation" = Some (VObj sim')
    /\ getattr sim' "domain" = Some (VObj domain')
    /\ forall other, other <> "domain" -> getattr sim' other = getattr sim other.
Proof.
  intros Hget H. destruct depth as [|depth]; [discriminate H|].
  destruct (effective_base run_object basepath) as [base|] eqn:Hbase;
    [|rewrite (make_relative_no_base depth _ _ Hbase) in H; discriminate H].
  rewrite (make_relative_step depth _ _ _ Hbase) in H.
  destruct (for_each_simulation (__make_relative__ depth) base sim (dir run_object)
              run_object run_object' (dir_NoDup run_object)
              (dir_In _ _ _ Hget) Hget H)
    as (domain & top & domain' & Hd & Ht & Hr & Hget').
  exists depth, domain, top, domain', (setattr sim "domain" (VObj domain')).
  repeat split; try assumption.
  - apply getattr_setattr_same.
  - intros other Hne. apply getattr_setattr_other. exact Hne.
Qed.

(** *** Nothing to do, and what can go wrong *)












Import Scenarios MoreScenarios.

Lemma make_relative_time_series_witness :
  getattr job_relative "channel_rt"
  = Some (VTs [VPath (of_str "out/1.nc"); VPath (of_str "out/2.nc")]).
Proof.
  destruct (make_relative_time_series 2 job (VStr "/a/b") "channel_rt"
              [VPath (of_str "/a/b/out/1.nc"); VPath (of_str "/a/b/out/2.nc")]
              job_relative (Ok tt) eq_refl eq_refl)
    as [_ (k & relative_list & Hforms & _ & Hcons & Hwhole)].
  specialize (Hforms (VStr "/a/b") eq_refl).
  rewrite (Hwhole eq_refl eq_refl) in Hforms.
  unfold relative_forms in Hforms. simpl in Hforms.
  inversion Hforms as [|? r1 ? rest1 H1 Hrest1]; subst.
  inversion Hrest1 as [|? r2 ? rest2 H2 Hrest2]; subst.
  inversion Hrest2; subst.
  vm_compute in H1. vm_compute in H2. inversion H1; inversion H2; subst.
  apply Hcons. discriminate.
Defined.

Lemma make_relative_path_old_or_relative_witness :
  getattr job_relative "restart_file" = Some (VPath (of_str "/a/b/c/d"))
  \/ exists base rp,
       effective_base job (VStr "/a/b") = Some base
       /\ relative_path (of_str "/a/b/c/d") base = Ok rp
       /\ getattr job_relative "restart_file" = Some (VPath rp).
Proof.
  exact (make_relative_path_old_or_relative 2 job (VStr "/a/b") "restart_file"
           (of_str "/a/b/c/d") job_relative (Ok tt) eq_refl eq_refl).
Defined.

Lemma make_relative_dunder_untouched_witness :
  getattr job_relative "__origin" = getattr job "__origin".
Proof.
  exact (make_relative_dunder_untouched 2 job (VStr "/a/b") "__origin" job_relative
           (Ok tt) eq_refl eq_refl).
Defined.

Lemma make_relative_leaves_other_values_witness :
  getattr (fst (__make_relative__ 3 nested_job VNone)) "static"
  = Some (VStatic (of_str "/a/b/s.nc")).
Proof.
  apply (make_relative_leaves_other_values 3 nested_job VNone "static"
           (VStatic (of_str "/a/b/s.nc"))
           (fst (__make_relative__ 3 nested_job VNone))
           (snd (__make_relative__ 3 nested_job VNone))).
  - reflexivity.
  - left. reflexivity.
  - reflexivity.
Defined.

Lemma make_relative_default_base_becomes_dot_witness :
  getattr (fst (__make_relative__ 3 nested_job VNone)) "simulation_dir"
  = Some (VPath (mkPath "" []))
  /\ to_str (mkPath "" []) = ".".
Proof.
  apply (make_relative_default_base_becomes_dot 3 nested_job (of_str "/a/b")
           (fst (__make_relative__ 3 nested_job VNone))).
  - reflexivity.
  - reflexivity.
Defined.

Lemma make_relative_descends_witness :
  exists depth' domain top domain' sim',
    3 = S depth'
    /\ getattr [("domain",
                 VObj [("domain_top_dir", VPath (of_str "/d"));
                       ("geo_file", VPath (of_str "/d/geo.nc"))]);
                ("forcing_dir", VPath (of_str "/a/b/forcing"))] "domain"
       = Some (VObj domain)
    /\ getattr domain "domain_top_dir" = Some top
    /\ __make_relative__ depth' domain top = (domain', Ok tt)
    /\ getattr (fst (__make_relative__ 3 nested_job VNone)) "simulation" = Some (VObj sim')
    /\ getattr sim' "domain" = Some (VObj domain')
    /\ forall other, other <> "domain" ->
         getattr sim' other
         = getattr [("domain",
                     VObj [("domain_top_dir", VPath (of_str "/d"));
                           ("geo_file", VPath (of_str "/d/geo.nc"))]);
                    ("forcing_dir", VPath (of_str "/a/b/forcing"))] other.
Proof.
  apply (make_relative_descends 3 nested_job VNone _
           (fst (__make_relative__ 3 nested_job VNone))).
  - reflexivity.
  - reflexivity.
Defined.



End RelativeMore.
